(** * a9-std: tagged serialisable types with prototype hydration

    A shallow embedding of the core library ([Struct]: the registry
    [ID_TO_PROTO] / [PROTO_TO_ID], the accessor [get _], [toJSON], [parse]
    and [register]) together with the two platform walks the library plugs
    into: the property serialisation of [JSON.stringify], which calls
    [toJSON], and the reviver walk of [JSON.parse], which calls the arrow
    function passed by [Struct.parse].

    Modelling choices.
    - JavaScript values of the [Serde] type are finite trees: the library
      tracks no sharing, and a value is observed through its prototype and
      its own enumerable properties only.
    - An object's own properties are kept as a list in the order in which
      JavaScript enumerates them ([Object.keys], [JSON.stringify]): keys that
      are array indices first, in ascending numeric order, then the other
      keys in order of creation.
    - A prototype object is known by its identity, a [positive].  Registered
      constructors are classes deriving from [Struct], as in
      [static { Struct.register(this, id) }]: their prototype inherits
      [toJSON] and the accessor [_] unchanged.
    - Property keys are ordinary names.  The members that class [Struct]
      declares, [_] and [toJSON], are not field names of an instance (the
      class typing excludes it).  On the key [__proto__] the platforms
      differ: where [Object.prototype] has the legacy accessor of that name
      (Node.js) the assignment [result[key] = value] of [toJSON] creates no
      own property, where it has not (Deno) the key is an ordinary one.  The
      assignment is modelled for the other keys, and the properties about
      what [toJSON] copies are stated of instances without an own property
      of that name ([ordinary_keys]).
    - A [number] is a finite number other than [-0], carried as a rational,
      or one of [-0], [NaN], [Infinity] and [-Infinity]; arithmetic plays no
      part.
    - The text grammar of JSON belongs to the platform: the reader and the
      writer of JSON text are parameters of [Struct_parse] and
      [JSON_stringify]. *)

From Stdlib Require Import Ascii String NArith.
From stdpp Require Import gmap strings list.

Set Default Proof Using "Type".

(** ** Outcomes of a call: a returned value or a thrown exception *)

Inductive Exception : Type :=
| Error (message : string)
| SyntaxError
| TypeError.

Inductive Outcome (A : Type) : Type :=
| Return (a : A)
| Throw (e : Exception).

Arguments Return {A} a.
Arguments Throw {A} e.

#[global] Instance Outcome_ret : MRet Outcome := fun A a => Return a.

#[global] Instance Outcome_bind : MBind Outcome := fun A B k m =>
  match m with
  | Return a => k a
  | Throw e => Throw e
  end.

#[global] Instance Outcome_fmap : FMap Outcome := fun A B f m =>
  match m with
  | Return a => Return (f a)
  | Throw e => Throw e
  end.

(** ** Data: the types [UUID], [Field] and [Serde] of the library *)

Abbreviation UUID := string (only parsing).

(** The identity of a prototype object. *)
Abbreviation Proto := positive (only parsing).

(** The type [number]; [Finite q] with [q] zero is [+0]. *)
Inductive number : Type :=
| Finite (q : QArith_base.Q)
| NegZero
| NaN
| Infinity
| NegInfinity.

(** [Number.isFinite]. *)
Definition is_finite (n : number) : bool :=
  match n with
  | Finite _ | NegZero => true
  | _ => false
  end.

(** The number that the text [Number::toString] makes of a finite number
    denotes: the number itself, but [0] for [-0]. *)
Definition written (n : number) : number :=
  match n with
  | NegZero => Finite (QArith_base.Qmake 0 1)
  | _ => n
  end.

Unset Elimination Schemes.

(** [Field]: what JSON text denotes ([Document] is the [FObj] that carries
    the key [_]). *)
Inductive Field : Type :=
| FNull
| FBool (b : bool)
| FNum (n : number)
| FStr (s : string)
| FArr (items : list Field)
| FObj (props : list (string * Field)).

(** [Serde]: the live values.  [SStruct proto own] is an instance of a class
    deriving from [Struct], with prototype [proto] and own enumerable
    properties [own]; [SObj] is a plain object, [SArr] an array. *)
Inductive Serde : Type :=
| SNull
| SBool (b : bool)
| SNum (n : number)
| SStr (s : string)
| SStruct (proto : Proto) (own : list (string * Serde))
| SArr (items : list Serde)
| SObj (props : list (string * Serde)).

Set Elimination Schemes.

(** ** Own properties of an object, in enumeration order *)

Definition digit_value (c : ascii) : option N :=
  let n := N_of_ascii c in
  if ((48 <=? n) && (n <=? 57))%N then Some (n - 48)%N else None.

Fixpoint digits_value (acc : N) (s : string) : option N :=
  match s with
  | EmptyString => Some acc
  | String c s' =>
      match digit_value c with
      | Some d => digits_value (10 * acc + d)%N s'
      | None => None
      end
  end.

(** A key is an array index when it is the canonical decimal spelling of an
    integer between 0 and 2^32 - 2. *)
Definition array_index (key : string) : option N :=
  match key with
  | EmptyString => None
  | String "0" EmptyString => Some 0%N
  | String "0" _ => None
  | _ =>
      match digits_value 0 key with
      | Some n => if (n <=? 4294967294)%N then Some n else None
      | None => None
      end
  end.

Definition is_index (key : string) : bool :=
  match array_index key with Some _ => true | None => false end.

Section OwnProperties.
Context {A : Type}.

(** [o[key]] on own properties. *)
Fixpoint obj_get (o : list (string * A)) (key : string) : option A :=
  match o with
  | [] => None
  | (k, x) :: o' => if String.eqb k key then Some x else obj_get o' key
  end.

(** [Object.prototype.hasOwnProperty.call(o, key)]. *)
Fixpoint obj_has (o : list (string * A)) (key : string) : bool :=
  match o with
  | [] => false
  | (k, _) :: o' => String.eqb k key || obj_has o' key
  end.

(** [Object.keys(o)]. *)
Definition obj_keys (o : list (string * A)) : list string := map fst o.

(** [delete o[key]]. *)
Fixpoint obj_delete (o : list (string * A)) (key : string) : list (string * A) :=
  match o with
  | [] => []
  | (k, x) :: o' =>
      if String.eqb k key then obj_delete o' key else (k, x) :: obj_delete o' key
  end.

(** Assignment to a property that exists: the value changes, the place in
    the enumeration does not. *)
Fixpoint obj_update (o : list (string * A)) (key : string) (v : A) : list (string * A) :=
  match o with
  | [] => []
  | (k, x) :: o' =>
      if String.eqb k key then (k, v) :: o' else (k, x) :: obj_update o' key v
  end.

(** A new property whose key is the array index [i] is enumerated after the
    smaller indices and before everything else. *)
Fixpoint obj_insert_index (o : list (string * A)) (i : N) (key : string) (v : A)
  : list (string * A) :=
  match o with
  | [] => [(key, v)]
  | (k, x) :: o' =>
      match array_index k with
      | Some j =>
          if (j <? i)%N then (k, x) :: obj_insert_index o' i key v
          else (key, v) :: (k, x) :: o'
      | None => (key, v) :: (k, x) :: o'
      end
  end.

(** [o[key] = v] on an ordinary object, with the place that
    [OrdinaryOwnPropertyKeys] gives to a new key.  The key is not
    [__proto__], which where [Object.prototype] has the accessor of that
    name is not made an own property. *)
Definition obj_set (o : list (string * A)) (key : string) (v : A) : list (string * A) :=
  if obj_has o key then obj_update o key v
  else
    match array_index key with
    | Some i => obj_insert_index o i key v
    | None => o ++ [(key, v)]
    end.

(** [for (const key of Object.keys(source)) result[key] = source[key]]. *)
Definition copy_own (result source : list (string * A)) : list (string * A) :=
  fold_left (fun r kv => obj_set r (fst kv) (snd kv)) source result.

Definition index_props (o : list (string * A)) : list (string * A) :=
  List.filter (fun kv => is_index (fst kv)) o.

Definition name_props (o : list (string * A)) : list (string * A) :=
  List.filter (fun kv => negb (is_index (fst kv))) o.

End OwnProperties.

(** The keys of an object as JavaScript enumerates them: array indices in
    strictly ascending order, then the names; no key twice. *)
Fixpoint ascending_from (last : option N) (keys : list string) : bool :=
  match keys with
  | [] => true
  | k :: keys' =>
      match array_index k with
      | Some i =>
          match last with
          | Some l => (l <? i)%N
          | None => true
          end && ascending_from (Some i) keys'
      | None => forallb (fun k' => negb (is_index k')) keys'
      end
  end.

Definition enumeration_order (keys : list string) : Prop :=
  ascending_from None keys = true ∧ NoDup keys.

(** ** The registry: [Struct.ID_TO_PROTO] and [Struct.PROTO_TO_ID] *)

(** A class constructor, as [register] sees it: its [prototype] object, and
    what [new] makes of the arguments (the own properties of the instance;
    [None] when the call does not return an instance). *)
Record Ctor : Type := {
  prototype : Proto;
  new : list Serde → option (list (string * Serde))
}.

Record Registry : Type := {
  ID_TO_PROTO : gmap string positive;
  PROTO_TO_ID : gmap positive string
}.

(** [static ID_TO_PROTO = new Map()], [static PROTO_TO_ID = new WeakMap()]. *)
Definition Registry_init : Registry :=
  {| ID_TO_PROTO := ∅; PROTO_TO_ID := ∅ |}.

(** [static register(Ctor, id)] with a class, whose [Ctor.prototype] is an
    object: the two writes.  The call on any function is
    [Struct_register_call]. *)
Definition Struct_register (reg : Registry) (C : Ctor) (id : UUID) : Registry :=
  {| ID_TO_PROTO := <[id := prototype C]> (ID_TO_PROTO reg);
     PROTO_TO_ID := <[prototype C := id]> (PROTO_TO_ID reg) |}.



(** The template literal type [UUID]: five parts separated by hyphens. *)
Fixpoint hyphens (s : string) : nat :=
  match s with
  | EmptyString => 0
  | String c s' => (if Ascii.eqb c "-" then 1 else 0) + hyphens s'
  end.

Definition is_UUID (s : string) : bool := 4 <=? hyphens s.

(** The registries that calls of [register] with a class and an identifier
    of type [UUID] lead to, from the initial one. *)
Inductive Registered : Registry → Prop :=
| Registered_init : Registered Registry_init
| Registered_register (reg : Registry) (C : Ctor) (id : UUID) :
    Registered reg → is_UUID id = true → Registered (Struct_register reg C id).

(** ** The methods of [Struct] *)

(** [ToBoolean] of a string: [!id] holds of [undefined], what the map
    answers for a missing key, and among strings of the empty one only. *)
Definition truthy (s : string) : bool :=
  match s with
  | EmptyString => false
  | String _ _ => true
  end.

Definition Unregistered : Exception := Error "Unregistered type/prototype".

(** [get _()], on a receiver whose prototype, the result of
    [Object.getPrototypeOf(this)], is [this_proto]. *)
Definition Struct_get_ (reg : Registry) (this_proto : Proto) : Outcome UUID :=
  match PROTO_TO_ID reg !! this_proto with
  | Some id => if truthy id then Return id else Throw Unregistered
  | None => Throw Unregistered
  end.

(** [toJSON()], on a receiver with prototype [this_proto] and own properties
    [this_own].  The declared result type is [Document]; the values copied
    into it are those of the receiver, not yet serialised. *)
Definition Struct_toJSON (reg : Registry) (this_proto : Proto)
    (this_own : list (string * Serde)) : Outcome (list (string * Serde)) :=
  match PROTO_TO_ID reg !! this_proto with
  | Some id =>
      if truthy id then Return (copy_own [("_", SStr id)] this_own)
      else Throw Unregistered
  | None => Throw Unregistered
  end.

(** The arrow function [(_k, v) => ...] that [parse] hands to [JSON.parse].
    The test [v && typeof v === "object" && !Array.isArray(v) &&
    typeof v._ === "string"] holds of the plain objects whose own property
    [_] is a string; [Object.setPrototypeOf(v, proto)] and [delete v._] are
    done when [ID_TO_PROTO] has the identifier; [v] is returned in every
    case.  [JSON.parse] calls the function on the nodes it has just built:
    [v] is never an instance. *)
Definition reviver (reg : Registry) (v : Serde) : Serde :=
  match v with
  | SObj props =>
      match obj_get props "_" with
      | Some (SStr id) =>
          match ID_TO_PROTO reg !! id with
          | Some proto => SStruct proto (obj_delete props "_")
          | None => v
          end
      | _ => v
      end
  | _ => v
  end.

(** ** The platform walks *)

Definition each_item {A B : Type} (f : A → Outcome B) : list A → Outcome (list B) :=
  fix go (xs : list A) : Outcome (list B) :=
    match xs with
    | [] => Return []
    | x :: xs' => y ← f x; ys ← go xs'; Return (y :: ys)
    end.

Definition each_prop {A B : Type} (f : A → Outcome B)
  : list (string * A) → Outcome (list (string * B)) :=
  fix go (ps : list (string * A)) : Outcome (list (string * B)) :=
    match ps with
    | [] => Return []
    | (k, x) :: ps' => y ← f x; ys ← go ps'; Return ((k, y) :: ys)
    end.

Definition map_props {A B : Type} (f : A → B) (ps : list (string * A))
  : list (string * B) :=
  map (fun kv => (fst kv, f (snd kv))) ps.

(** [SerializeJSONProperty] of [JSON.stringify], up to the writing of the
    text.  An object whose [toJSON] is callable is replaced by the result of
    the call, whose properties are then serialised in turn: the values that
    [toJSON] copies are serialised here before the copy, which
    [Serialize_Struct_calls_toJSON] shows to be the same.  An own property
    [toJSON], being data, hides the method. *)
Fixpoint SerializeJSONProperty (reg : Registry) (value : Serde) : Outcome Field :=
  match value with
  | SNull => Return FNull
  | SBool b => Return (FBool b)
  | SNum n => Return (if is_finite n then FNum (written n) else FNull)
  | SStr s => Return (FStr s)
  | SArr items => FArr <$> each_item (SerializeJSONProperty reg) items
  | SObj props => FObj <$> each_prop (SerializeJSONProperty reg) props
  | SStruct proto own =>
      if obj_has own "toJSON"
      then FObj <$> each_prop (SerializeJSONProperty reg) own
      else
        match PROTO_TO_ID reg !! proto with
        | Some id =>
            if truthy id then
              fs ← each_prop (SerializeJSONProperty reg) own;
              Return (FObj (copy_own [("_", FStr id)] fs))
            else Throw Unregistered
        | None => Throw Unregistered
        end
  end.

(** [SerializeJSONObject], on the own properties of a plain object. *)
Definition SerializeJSONObject (reg : Registry) (props : list (string * Serde))
  : Outcome Field :=
  FObj <$> each_prop (SerializeJSONProperty reg) props.

(** [InternalizeJSONProperty] of [JSON.parse] with the reviver of [parse]:
    the elements and the property values are walked first, in place, then
    the reviver is called on the node and its result kept. *)
Fixpoint InternalizeJSONProperty (reg : Registry) (val : Field) : Serde :=
  reviver reg
    match val with
    | FNull => SNull
    | FBool b => SBool b
    | FNum n => SNum n
    | FStr s => SStr s
    | FArr items => SArr (map (InternalizeJSONProperty reg) items)
    | FObj props => SObj (map_props (InternalizeJSONProperty reg) props)
    end.

Section TextLayer.

(** The platform's reader of JSON text ([None]: the text is not JSON) and
    its writer. *)
Variable JSON_parse_text : string → option Field.
Variable JSON_print_text : Field → string.

(** [JSON.stringify(value)]. *)
Definition JSON_stringify (reg : Registry) (value : Serde) : Outcome string :=
  JSON_print_text <$> SerializeJSONProperty reg value.

(** [static parse(json)]. *)
Definition Struct_parse (reg : Registry) (json : string) : Outcome Serde :=
  match JSON_parse_text json with
  | Some val => Return (InternalizeJSONProperty reg val)
  | None => Throw SyntaxError
  end.

End TextLayer.

(** ** The Serializable Value universe *)

Definition all_items {A : Type} (P : A → Prop) : list A → Prop :=
  fix go (xs : list A) : Prop :=
    match xs with
    | [] => True
    | x :: xs' => P x ∧ go xs'
    end.

Definition all_props {A : Type} (P : A → Prop) : list (string * A) → Prop :=
  fix go (ps : list (string * A)) : Prop :=
    match ps with
    | [] => True
    | (_, x) :: ps' => P x ∧ go ps'
    end.

(** [P] holds of [v] and of every value inside it. *)
Fixpoint all_nodes (P : Serde → Prop) (v : Serde) : Prop :=
  P v ∧
  match v with
  | SStruct _ own => all_props (all_nodes P) own
  | SArr items => all_items (all_nodes P) items
  | SObj props => all_props (all_nodes P) props
  | _ => True
  end.

(** A tagged value is an instance of a registered class; its own properties
    are data fields, so none has the name of a member that class [Struct]
    declares.  A keyed collection does not carry the reserved key. *)
Definition in_universe (reg : Registry) (v : Serde) : Prop :=
  match v with
  | SStruct proto own =>
      is_Some (PROTO_TO_ID reg !! proto) ∧
      enumeration_order (obj_keys own) ∧
      obj_has own "_" = false ∧ obj_has own "toJSON" = false
  | SObj props =>
      enumeration_order (obj_keys props) ∧ obj_has props "_" = false
  | _ => True
  end.

Definition Serde_universe (reg : Registry) : Serde → Prop :=
  all_nodes (in_universe reg).

(** The lookup of [toJSON] finds an identifier for the class of [v]. *)
Definition type_registered (reg : Registry) (v : Serde) : Prop :=
  match v with
  | SStruct proto _ => ∃ id, PROTO_TO_ID reg !! proto = Some id ∧ truthy id = true
  | _ => True
  end.

(** The numbers that [JSON.stringify] writes as they are: the finite ones
    but [-0]. *)
Definition number_kept (v : Serde) : Prop :=
  match v with
  | SNum n => is_finite n = true ∧ written n = n
  | _ => True
  end.

Definition numbers_kept : Serde → Prop := all_nodes number_kept.

(** The instance has no own property named [__proto__]. *)
Definition ordinary_key (v : Serde) : Prop :=
  match v with
  | SStruct _ own => obj_has own "__proto__" = false
  | _ => True
  end.

Definition ordinary_keys : Serde → Prop := all_nodes ordinary_key.

(** The identifier under which the class of a tagged value is registered
    leads back to that class. *)
Definition tag_resolves (reg : Registry) (v : Serde) : Prop :=
  match v with
  | SStruct proto _ =>
      ∀ id, PROTO_TO_ID reg !! proto = Some id → ID_TO_PROTO reg !! id = Some proto
  | _ => True
  end.

Definition tags_resolve (reg : Registry) : Serde → Prop :=
  all_nodes (tag_resolves reg).

(** The registry after the calls [register(C, id)] of a program, in order. *)
Definition registrations (calls : list (Ctor * string)) : Registry :=
  fold_left (fun reg c => Struct_register reg (fst c) (snd c)) calls Registry_init.

(** ** Places inside a document and inside a value *)

Inductive Step : Type :=
| key (k : string)
| index (i : nat).

(** [d.k1[i2].k3 ...], where the path leads somewhere. *)
Fixpoint Field_at (path : list Step) (d : Field) : option Field :=
  match path with
  | [] => Some d
  | key k :: path' =>
      match d with
      | FObj props => x ← obj_get props k; Field_at path' x
      | _ => None
      end
  | index i :: path' =>
      match d with
      | FArr items => x ← items !! i; Field_at path' x
      | _ => None
      end
  end.

(** The same on values, through own properties only. *)
Fixpoint Serde_at (path : list Step) (v : Serde) : option Serde :=
  match path with
  | [] => Some v
  | key k :: path' =>
      match v with
      | SStruct _ own => x ← obj_get own k; Serde_at path' x
      | SObj props => x ← obj_get props k; Serde_at path' x
      | _ => None
      end
  | index i :: path' =>
      match v with
      | SArr items => x ← items !! i; Serde_at path' x
      | _ => None
      end
  end.

(** ** Induction on nested values *)

Definition Serde_ind (P : Serde → Prop)
    (Hnull : P SNull) (Hbool : ∀ b, P (SBool b)) (Hnum : ∀ n, P (SNum n))
    (Hstr : ∀ s, P (SStr s))
    (Hstruct : ∀ proto own, Forall (fun kv => P (snd kv)) own → P (SStruct proto own))
    (Harr : ∀ items, Forall P items → P (SArr items))
    (Hobj : ∀ props, Forall (fun kv => P (snd kv)) props → P (SObj props))
  : ∀ v, P v :=
  fix go (v : Serde) : P v :=
    match v with
    | SNull => Hnull
    | SBool b => Hbool b
    | SNum n => Hnum n
    | SStr s => Hstr s
    | SStruct proto own =>
        Hstruct proto own
          ((fix props (ps : list (string * Serde)) : Forall (fun kv => P (snd kv)) ps :=
              match ps with
              | [] => List.Forall_nil _
              | kv :: ps' => List.Forall_cons _ kv ps' (go (snd kv)) (props ps')
              end) own)
    | SArr items =>
        Harr items
          ((fix elems (xs : list Serde) : Forall P xs :=
              match xs with
              | [] => List.Forall_nil _
              | x :: xs' => List.Forall_cons _ x xs' (go x) (elems xs')
              end) items)
    | SObj props =>
        Hobj props
          ((fix members (ps : list (string * Serde)) : Forall (fun kv => P (snd kv)) ps :=
              match ps with
              | [] => List.Forall_nil _
              | kv :: ps' => List.Forall_cons _ kv ps' (go (snd kv)) (members ps')
              end) props)
    end.

Definition Field_ind (P : Field → Prop)
    (Hnull : P FNull) (Hbool : ∀ b, P (FBool b)) (Hnum : ∀ n, P (FNum n))
    (Hstr : ∀ s, P (FStr s))
    (Harr : ∀ items, Forall P items → P (FArr items))
    (Hobj : ∀ props, Forall (fun kv => P (snd kv)) props → P (FObj props))
  : ∀ d, P d :=
  fix go (d : Field) : P d :=
    match d with
    | FNull => Hnull
    | FBool b => Hbool b
    | FNum n => Hnum n
    | FStr s => Hstr s
    | FArr items =>
        Harr items
          ((fix elems (xs : list Field) : Forall P xs :=
              match xs with
              | [] => List.Forall_nil _
              | x :: xs' => List.Forall_cons _ x xs' (go x) (elems xs')
              end) items)
    | FObj props =>
        Hobj props
          ((fix members (ps : list (string * Field)) : Forall (fun kv => P (snd kv)) ps :=
              match ps with
              | [] => List.Forall_nil _
              | kv :: ps' => List.Forall_cons _ kv ps' (go (snd kv)) (members ps')
              end) props)
    end.

(** ** The classes of the usage demo *)

Module Demo.

Definition num (z : Z) : number := Finite (QArith_base.Qmake z 1).

Definition Some_prototype : Proto := 1%positive.
Definition None_prototype : Proto := 2%positive.
Definition Pair_prototype : Proto := 3%positive.

(** [class Some<T> extends Option<T> { constructor(public readonly v: T) }];
    the declared arity is one. *)
Definition Some_ : Ctor :=
  {| prototype := Some_prototype;
     new := fun args => match args with [v] => Some [("v", v)] | _ => None end |}.

(** [class None extends Option<never> {}]. *)
Definition None_ : Ctor :=
  {| prototype := None_prototype;
     new := fun args => match args with [] => Some [] | _ => None end |}.

(** A class whose fields are numbered:
    [constructor(a, b) { super(); this[0] = a; this[1] = b }]. *)
Definition Pair_ : Ctor :=
  {| prototype := Pair_prototype;
     new := fun args =>
       match args with
       | [a; b] => Some (obj_set (obj_set [] "0" a) "1" b)
       | _ => None
       end |}.

Definition Some_id : UUID := "a30deba3-479f-4d5c-a008-cefe9200884a".
Definition None_id : UUID := "3949d0fe-8bc7-42d4-b154-1cc48f3ef5c5".
Definition Pair_id : UUID := "12345678-1234-1234-1234-123456789abc".
Definition unknown_id : UUID := "00000000-0000-0000-0000-000000000000".

Definition other_id : UUID := "8f14e45f-ceea-467f-a0e6-9a2b3c4d5e6f".

(** The calls of [register] made by the static blocks of the classes. *)
Definition calls : list (Ctor * string) :=
  [(Some_, Some_id); (None_, None_id); (Pair_, Pair_id)].

(** The registry once the static blocks have run. *)
Definition registry : Registry := registrations calls.

(** The prototype of a class without a static block, as
    [class UnregisteredStruct extends Struct] of the tests. *)
Definition Unregistered_prototype : Proto := 4%positive.

(** [Some] registered a second time, under another identifier. *)
Definition registry_retagged : Registry :=
  Struct_register (Struct_register Registry_init Some_ Some_id) Some_ other_id.

(** [Some] and [None] registered under one identifier. *)
Definition registry_clash : Registry :=
  Struct_register (Struct_register Registry_init Some_ Some_id) None_ Some_id.

(** [new C(...args)]. *)
Definition construct (C : Ctor) (args : list Serde) : option Serde :=
  own ← new C args; Some (SStruct (prototype C) own).

(** [this.isSome()]: the method is found on the prototype of the receiver;
    calling what is not a function throws a [TypeError]. *)
Definition isSome (this : Serde) : Outcome bool :=
  match this with
  | SStruct proto _ =>
      if Pos.eqb proto Some_prototype then Return true
      else if Pos.eqb proto None_prototype then Return false
      else Throw TypeError
  | _ => Throw TypeError
  end.

(** [this.unwrapOr(defaultValue)], that is
    [this.isSome() ? this.v : defaultValue]; [None] stands for [undefined]. *)
Definition unwrapOr (this defaultValue : Serde) : Outcome (option Serde) :=
  b ← isSome this;
  Return (if b : bool
          then match this with
               | SStruct _ own => obj_get own "v"
               | _ => None
               end
          else Some defaultValue).

Definition Some42 : Serde := SStruct Some_prototype [("v", SNum (num 42))].

Definition Some42_doc : Field := FObj [("_", FStr Some_id); ("v", FNum (num 42))].

Definition bare_Some_doc : Field := FObj [("_", FStr Some_id)].

(** [new Some(NaN)] and the document that [JSON.stringify] makes of it. *)
Definition SomeNaN : Serde := SStruct Some_prototype [("v", SNum NaN)].

Definition SomeNaN_doc : Field := FObj [("_", FStr Some_id); ("v", FNull)].

(** [new Some(-0)], and the document that [JSON.stringify] makes of it,
    which is that of [new Some(0)]. *)
Definition SomeNegZero : Serde := SStruct Some_prototype [("v", SNum NegZero)].

Definition Some0_doc : Field := FObj [("_", FStr Some_id); ("v", FNum (num 0))].

Definition foreign_doc : Field :=
  FObj [("_", FStr unknown_id); ("data", FStr "test")].

(** [s] between double quotes. *)
Definition quoted (s : string) : string :=
  String "034" (s +:+ String "034" EmptyString).

(** [{ value: { _: "00000000-...", data: "test" } }]. *)
Definition wrapped_foreign_doc : Field := FObj [("value", foreign_doc)].

(** Numbers at the ends of the safe integers, a fraction, strings with a
    newline and a tab, a quote, backslashes and text outside ASCII, empty
    containers. *)
Definition edge_doc : Field :=
  FObj [("large", FNum (num 9007199254740991));
        ("small", FNum (num (-9007199254740991)));
        ("float", FNum (Finite (QArith_base.Qmake 314159 100000)));
        ("lines", FStr ("line1" +:+ String "010" ("line2" +:+ String "009" "col2")));
        ("quote", FStr ("He said " +:+ quoted "hello"));
        ("backslash", FStr "path\to\file");
        ("unicode", FStr "Hello 世界");
        ("nothing", FNull);
        ("flag", FBool true);
        ("list", FArr []);
        ("record", FObj [])].

Definition Pair12 : Serde :=
  SStruct Pair_prototype [("0", SNum (num 1)); ("1", SNum (num 2))].

Definition Pair12_doc : Field :=
  FObj [("0", FNum (num 1)); ("1", FNum (num 2)); ("_", FStr Pair_id)].

(** An excerpt of what the platform reads and writes, for the documents
    above. *)
Definition Some42_text : string :=
  "{" +:+ quoted "_" +:+ ":" +:+ quoted Some_id +:+ ","
      +:+ quoted "v" +:+ ":42}".

Definition SomeNaN_text : string :=
  "{" +:+ quoted "_" +:+ ":" +:+ quoted Some_id +:+ ","
      +:+ quoted "v" +:+ ":null}".

Definition Some0_text : string :=
  "{" +:+ quoted "_" +:+ ":" +:+ quoted Some_id +:+ ","
      +:+ quoted "v" +:+ ":0}".

Definition bare_Some_text : string :=
  "{" +:+ quoted "_" +:+ ":" +:+ quoted Some_id +:+ "}".

Definition foreign_text : string :=
  "{" +:+ quoted "_" +:+ ":" +:+ quoted unknown_id +:+ ","
      +:+ quoted "data" +:+ ":" +:+ quoted "test" +:+ "}".

Definition wrapped_foreign_text : string :=
  "{" +:+ quoted "value" +:+ ":" +:+ foreign_text +:+ "}".

Definition Pair12_text : string :=
  "{" +:+ quoted "0" +:+ ":1," +:+ quoted "1" +:+ ":2,"
      +:+ quoted "_" +:+ ":" +:+ quoted Pair_id +:+ "}".

Definition sample_texts : list (string * Field) :=
  [ (Some42_text, Some42_doc);
    (SomeNaN_text, SomeNaN_doc);
    (Some0_text, Some0_doc);
    (bare_Some_text, bare_Some_doc);
    (foreign_text, foreign_doc);
    (wrapped_foreign_text, wrapped_foreign_doc);
    (Pair12_text, Pair12_doc);
    ("[]", FArr []);
    ("{}", FObj []);
    ("null", FNull) ].

Definition number_eqb (a b : number) : bool :=
  match a, b with
  | Finite x, Finite y =>
      Z.eqb (QArith_base.Qnum x) (QArith_base.Qnum y)
      && Pos.eqb (QArith_base.Qden x) (QArith_base.Qden y)
  | NegZero, NegZero | NaN, NaN | Infinity, Infinity
  | NegInfinity, NegInfinity => true
  | _, _ => false
  end.

Fixpoint Field_eqb (a b : Field) : bool :=
  match a, b with
  | FNull, FNull => true
  | FBool x, FBool y => Bool.eqb x y
  | FNum x, FNum y => number_eqb x y
  | FStr x, FStr y => String.eqb x y
  | FArr xs, FArr ys =>
      (fix items (xs ys : list Field) : bool :=
         match xs, ys with
         | [], [] => true
         | x :: xs', y :: ys' => Field_eqb x y && items xs' ys'
         | _, _ => false
         end) xs ys
  | FObj ps, FObj qs =>
      (fix members (ps qs : list (string * Field)) : bool :=
         match ps, qs with
         | [], [] => true
         | (k, x) :: ps', (l, y) :: qs' =>
             String.eqb k l && Field_eqb x y && members ps' qs'
         | _, _ => false
         end) ps qs
  | _, _ => false
  end.

Definition sample_read (json : string) : option Field :=
  snd <$> List.find (fun e => String.eqb (fst e) json) sample_texts.

Definition sample_write (d : Field) : string :=
  match List.find (fun e => Field_eqb (snd e) d) sample_texts with
  | Some e => fst e
  | None => "null"
  end.

(** *** The methods of [Option], called on any value *)

(** [new Some(v)] and [new None()]. *)
Definition new_Some (v : Serde) : Serde := SStruct Some_prototype [("v", v)].
Definition new_None : Serde := SStruct None_prototype [].

(** The instances whose prototype is that of [Some] or of [None], the two
    classes deriving from [Option]. *)
Definition is_Option (this : Serde) : bool :=
  match this with
  | SStruct proto _ => Pos.eqb proto Some_prototype || Pos.eqb proto None_prototype
  | _ => false
  end.

(** The methods that [Option], [Some] and [None] declare. *)
Definition Option_methods : list string :=
  ["isSome"; "isNone"; "map"; "flatMap"; "unwrapOr"].

(** [this.name] is one of these methods: [name] is the name of one, the
    receiver is an instance of [Some] or [None], and it has no own property
    of that name, which would be data and hide the method. *)
Definition has_method (this : Serde) (name : string) : bool :=
  match this with
  | SStruct _ own =>
      is_Option this && existsb (String.eqb name) Option_methods
      && negb (obj_has own name)
  | _ => false
  end.

(** The call of what is not a function: a [TypeError], whose message is the
    engine's. *)
Definition not_a_function {A : Type} : Outcome A := Throw TypeError.

(** [this.v]; [None] stands for [undefined]. *)
Definition Get_v (this : Serde) : option Serde :=
  match this with
  | SStruct _ own => obj_get own "v"
  | _ => None
  end.


(** The calls [this.isSome()] and [this.isNone()] on any receiver. *)
Definition Option_isSome (this : Serde) : Outcome bool :=
  if has_method this "isSome" then isSome this else not_a_function.


(** [this.map(f)], that is
    [this.isSome() ? new Some(f(this.v)) : new None()].  The callback gets
    what [this.v] evaluates to and may throw. *)
Definition Option_map (f : option Serde → Outcome Serde) (this : Serde)
  : Outcome Serde :=
  if has_method this "map" then
    b ← Option_isSome this;
    if b : bool then y ← f (Get_v this); Return (new_Some y)
    else Return new_None
  else not_a_function.


(** [this.unwrapOr(defaultValue)], that is
    [this.isSome() ? this.v : defaultValue]. *)
Definition Option_unwrapOr (this defaultValue : Serde) : Outcome (option Serde) :=
  if has_method this "unwrapOr" then
    b ← Option_isSome this;
    Return (if b : bool then Get_v this else Some defaultValue)
  else not_a_function.

(** Callbacks for the examples: [v => [v ?? null]], [v => new Some(v ?? null)]
    and one that wraps a finite number other than [-0] in an array and
    throws on anything else. *)
Definition in_array (v : option Serde) : Outcome Serde :=
  Return (SArr [default SNull v]).


Definition finite_in_array (v : option Serde) : Outcome Serde :=
  match v with
  | Some (SNum (Finite q)) => Return (SArr [SNum (Finite q)])
  | _ => Throw (Error "not a finite number")
  end.

End Demo.

(** ** Notions for the properties of [parse] and [register] *)

(** [JSON.parse(text)] without a reviver: the document as plain values. *)
Fixpoint Field_plain (d : Field) : Serde :=
  match d with
  | FNull => SNull
  | FBool b => SBool b
  | FNum n => SNum n
  | FStr s => SStr s
  | FArr items => SArr (map Field_plain items)
  | FObj props => SObj (map_props Field_plain props)
  end.

(** [P] holds of [d] and of every node inside it. *)
Fixpoint all_fields (P : Field → Prop) (d : Field) : Prop :=
  P d ∧
  match d with
  | FArr items => all_items (all_fields P) items
  | FObj props => all_props (all_fields P) props
  | _ => True
  end.

(** The node does not carry the identifier [id] under the reserved key. *)
Definition not_tagged (id : UUID) (d : Field) : Prop :=
  match d with
  | FObj props => obj_get props "_" ≠ Some (FStr id)
  | _ => True
  end.

(** The node carries no identifier that the registry knows. *)
Definition tag_unknown (reg : Registry) (d : Field) : Prop :=
  match d with
  | FObj props =>
      ∀ id, obj_get props "_" = Some (FStr id) → ID_TO_PROTO reg !! id = None
  | _ => True
  end.

(** The value is not an instance with prototype [proto]. *)
Definition not_instance_of (proto : Proto) (v : Serde) : Prop :=
  match v with
  | SStruct p _ => p ≠ proto
  | _ => True
  end.

(** What [parse] leaves behind at a node: a plain object carries no
    identifier of the registry, and an instance has a prototype of
    [ID_TO_PROTO] and no own reserved key. *)
Definition restored (reg : Registry) (v : Serde) : Prop :=
  match v with
  | SObj props =>
      ∀ id, obj_get props "_" = Some (SStr id) → ID_TO_PROTO reg !! id = None
  | SStruct proto own =>
      obj_has own "_" = false ∧ ∃ id, ID_TO_PROTO reg !! id = Some proto
  | _ => True
  end.

(** ** Auxiliary notions of the proofs *)

(** The properties of [o] have array indices for keys, none above [last]. *)
Definition indices_upto {A : Type} (last : option N) (o : list (string * A)) : Prop :=
  Forall (fun kv => ∃ j, array_index (fst kv) = Some j ∧
                         match last with Some l => (j <= l)%N | None => False end) o.

(** A registry written as calls of [register] on the initial one. *)
Ltac registered :=
  repeat first
    [ apply Registered_init
    | apply Registered_register; [|reflexivity] ].

(** Membership of a closed value in the universe, by evaluation. *)
Ltac in_universe :=
  repeat split; try reflexivity; try compute_done.

(** * Properties *)

#[local] Arguments String.eqb : simpl never.

(** ** Own properties *)

Section OwnPropertiesFacts.
Context {A : Type}.
Implicit Types (o own : list (string * A)) (k key : string).

Lemma is_index_Some key i : array_index key = Some i → is_index key = true.
Proof. unfold is_index. by intros ->. Qed.

Lemma is_index_None key : array_index key = None → is_index key = false.
Proof. unfold is_index. by intros ->. Qed.

Lemma obj_has_elem o key : obj_has o key = true ↔ key ∈ obj_keys o.
Proof.
  induction o as [|[k x] o IH]; simpl.
  - split; [discriminate | intros H; inversion H].
  - rewrite orb_true_iff, IH, String.eqb_eq, elem_of_cons.
    split; (intros [H|H]; [left; congruence | by right]).
Qed.

Lemma obj_has_not_elem o key : obj_has o key = false ↔ key ∉ obj_keys o.
Proof.
  rewrite <- obj_has_elem. destruct (obj_has o key); naive_solver.
Qed.

Lemma obj_has_app o1 o2 key :
  obj_has (o1 ++ o2) key = obj_has o1 key || obj_has o2 key.
Proof.
  induction o1 as [|[k x] o1 IH]; simpl; [done|].
  by rewrite IH, orb_assoc.
Qed.

Lemma obj_get_None o key : obj_has o key = false → obj_get o key = None.
Proof.
  induction o as [|[k x] o IH]; simpl; [done|].
  intros [H1 H2]%orb_false_iff. rewrite H1. auto.
Qed.

Lemma obj_get_app_skip o1 o2 key :
  obj_has o1 key = false → obj_get (o1 ++ o2) key = obj_get o2 key.
Proof.
  induction o1 as [|[k x] o1 IH]; simpl; [done|].
  intros [H1 H2]%orb_false_iff. rewrite H1. auto.
Qed.

Lemma obj_delete_absent o key : obj_has o key = false → obj_delete o key = o.
Proof.
  induction o as [|[k x] o IH]; simpl; [done|].
  intros [H1 H2]%orb_false_iff. rewrite H1. f_equal. auto.
Qed.

Lemma obj_delete_app o1 o2 key :
  obj_delete (o1 ++ o2) key = obj_delete o1 key ++ obj_delete o2 key.
Proof.
  induction o1 as [|[k x] o1 IH]; simpl; [done|].
  destruct (String.eqb k key); simpl; by rewrite IH.
Qed.

Lemma obj_has_delete o key : obj_has (obj_delete o key) key = false.
Proof.
  induction o as [|[k x] o IH]; simpl; [done|].
  destruct (String.eqb k key) eqn:E; simpl; [done|]. by rewrite E.
Qed.

Lemma obj_has_delete_ne o key k :
  k ≠ key → obj_has (obj_delete o key) k = obj_has o k.
Proof.
  intros Hne. induction o as [|[k' x] o IH]; simpl; [done|].
  destruct (String.eqb k' key) eqn:E; simpl.
  - apply String.eqb_eq in E as ->.
    apply String.eqb_neq in Hne. rewrite String.eqb_sym in Hne.
    by rewrite Hne.
  - by rewrite IH.
Qed.

Lemma obj_get_delete_ne o key k :
  k ≠ key → obj_get (obj_delete o key) k = obj_get o k.
Proof.
  intros Hne. induction o as [|[k' x] o IH]; simpl; [done|].
  destruct (String.eqb k' key) eqn:E; simpl.
  - apply String.eqb_eq in E as ->.
    apply String.eqb_neq in Hne. rewrite String.eqb_sym in Hne.
    by rewrite Hne.
  - by rewrite IH.
Qed.

Lemma obj_keys_delete o key :
  obj_keys (obj_delete o key)
  = List.filter (fun k => negb (String.eqb k key)) (obj_keys o).
Proof.
  induction o as [|[k x] o IH]; simpl; [done|].
  destruct (String.eqb k key); simpl; by rewrite IH.
Qed.

Lemma obj_keys_app o1 o2 : obj_keys (o1 ++ o2) = obj_keys o1 ++ obj_keys o2.
Proof. apply map_app. Qed.

(** A new array index goes behind the smaller indices that lead the
    enumeration and before the first name. *)
Lemma obj_insert_index_behind o1 o2 i key n (v x : A) :
  Forall (fun kv => ∃ j, array_index (fst kv) = Some j ∧ (j < i)%N) o1 →
  array_index n = None →
  obj_insert_index (o1 ++ (n, x) :: o2) i key v
  = o1 ++ (key, v) :: (n, x) :: o2.
Proof.
  intros Hsmall Hname. induction Hsmall as [|[k y] o1 (j & Hj & Hlt) _ IH]; simpl.
  - by rewrite Hname.
  - simpl in Hj. rewrite Hj. apply N.ltb_lt in Hlt. rewrite Hlt. by rewrite IH.
Qed.

Lemma names_ascending last (keys : list string) :
  forallb (fun k => negb (is_index k)) keys = true →
  ascending_from last keys = true.
Proof.
  destruct keys as [|k keys]; simpl; [done|].
  intros [H1 H2]%andb_true_iff. apply negb_true_iff in H1.
  unfold is_index in H1. destruct (array_index k); [done|]. exact H2.
Qed.

Lemma names_index_props o :
  forallb (fun k => negb (is_index k)) (obj_keys o) = true →
  index_props o = [] ∧ name_props o = o.
Proof.
  induction o as [|[k x] o IH]; simpl; [done|].
  intros [H1 H2]%andb_true_iff. destruct (IH H2) as [Hi Hn].
  apply negb_true_iff in H1. rewrite H1. simpl. by rewrite Hi, Hn.
Qed.

(** Enumeration lists the array indices, then the names. *)
Lemma enumeration_split last o :
  ascending_from last (obj_keys o) = true → o = index_props o ++ name_props o.
Proof.
  revert last. induction o as [|[k x] o IH]; intros last; simpl; [done|].
  destruct (array_index k) as [i|] eqn:Hk.
  - rewrite (is_index_Some _ _ Hk). simpl.
    intros [_ H]%andb_true_iff. f_equal. eauto.
  - rewrite (is_index_None _ Hk). simpl.
    intros H. destruct (names_index_props o H) as [Hi Hn]. by rewrite Hi, Hn.
Qed.

Lemma copy_own_cons o k (v : A) own :
  copy_own o ((k, v) :: own) = copy_own (obj_set o k v) own.
Proof. reflexivity. Qed.

Lemma indices_upto_lt last i o :
  indices_upto last o →
  match last with Some l => (l <? i)%N | None => true end = true →
  Forall (fun kv => ∃ j, array_index (fst kv) = Some j ∧ (j < i)%N) o.
Proof.
  intros Hupto Hlast. eapply Forall_impl; [exact Hupto|]. simpl.
  intros kv (j & Hj & Hle). exists j. split; [done|].
  destruct last as [l|]; [|done]. apply N.ltb_lt in Hlast. lia.
Qed.

Lemma copy_own_behind (x : A) own : ∀ last o1 o2,
  indices_upto last o1 →
  ascending_from last (obj_keys own) = true →
  NoDup (obj_keys own) →
  (∀ k, k ∈ obj_keys own → obj_has (o1 ++ ("_", x) :: o2) k = false) →
  copy_own (o1 ++ ("_", x) :: o2) own
  = (o1 ++ index_props own) ++ ("_", x) :: (o2 ++ name_props own).
Proof.
  induction own as [|[k v] own IH]; intros last o1 o2 Hupto Hasc Hnd Hfresh.
  - simpl. by rewrite !app_nil_r.
  - simpl in Hasc, Hnd. apply NoDup_cons in Hnd as [Hk Hnd].
    rewrite copy_own_cons. unfold obj_set.
    rewrite Hfresh by apply list_elem_of_here. simpl.
    assert (Hrest : ∀ k', k' ∈ obj_keys own →
              obj_has o1 k' = false ∧ obj_has o2 k' = false ∧
              String.eqb "_" k' = false ∧ String.eqb k k' = false).
    { intros k' Hk'. specialize (Hfresh k' (list_elem_of_further _ _ _ Hk')).
      rewrite obj_has_app in Hfresh. cbn [obj_has] in Hfresh.
      apply orb_false_iff in Hfresh as [Hf1 Hf2].
      apply orb_false_iff in Hf2 as [Hf2 Hf3].
      repeat split; try done. apply String.eqb_neq. by intros ->. }
    destruct (array_index k) as [i|] eqn:Hki.
    + rewrite (is_index_Some _ _ Hki). simpl.
      apply andb_true_iff in Hasc as [Hlast Hasc].
      rewrite obj_insert_index_behind by eauto using indices_upto_lt.
      change (o1 ++ (k, v) :: ("_", x) :: o2)
        with (o1 ++ [(k, v)] ++ ("_", x) :: o2).
      rewrite app_assoc.
      rewrite (IH (Some i)); [by rewrite <- !app_assoc| |done|done|].
      * apply Forall_app. split.
        -- eapply Forall_impl; [exact (indices_upto_lt _ i _ Hupto Hlast)|].
           simpl. intros kv (j & Hj & Hlt). exists j. split; [done|lia].
        -- apply Forall_singleton. exists i. split; [done|lia].
      * intros k' Hk'. destruct (Hrest k' Hk') as (H1 & H2 & H3 & H4).
        rewrite !obj_has_app. cbn [obj_has]. by rewrite H1, H2, H3, H4.
    + rewrite (is_index_None _ Hki). simpl.
      rewrite <- app_assoc. simpl.
      rewrite (IH last o1 (o2 ++ [(k, v)])); [by rewrite <- !app_assoc|done| |done|].
      * by apply names_ascending.
      * intros k' Hk'. destruct (Hrest k' Hk') as (H1 & H2 & H3 & H4).
        rewrite !obj_has_app. cbn [obj_has]. rewrite obj_has_app. cbn [obj_has].
        by rewrite H1, H2, H3, H4.
Qed.

(** The loop of [toJSON] on a receiver without own property [_]: the result
    enumerates the receiver's array indices, then [_], then its names. *)
Lemma copy_own_tagged (x : A) own :
  enumeration_order (obj_keys own) → obj_has own "_" = false →
  copy_own [("_", x)] own = index_props own ++ ("_", x) :: name_props own.
Proof.
  intros [Hasc Hnd] Hno.
  apply (copy_own_behind x own None [] []); [constructor|done|done|].
  intros k Hk. simpl. rewrite orb_false_r. apply String.eqb_neq.
  intros <-. apply obj_has_not_elem in Hno. done.
Qed.

Lemma index_props_has own key :
  array_index key = None → obj_has (index_props own) key = false.
Proof.
  intros Hkey. induction own as [|[k x] own IH]; simpl; [done|].
  destruct (array_index k) eqn:Hk.
  - rewrite (is_index_Some _ _ Hk). simpl.
    rewrite IH, orb_false_r. apply String.eqb_neq. intros ->. congruence.
  - by rewrite (is_index_None _ Hk).
Qed.

Lemma name_props_has own key :
  obj_has own key = false → obj_has (name_props own) key = false.
Proof.
  induction own as [|[k x] own IH]; simpl; [done|].
  intros [H1 H2]%orb_false_iff.
  destruct (negb (is_index k)); simpl; [rewrite H1|]; auto.
Qed.

End OwnPropertiesFacts.

Section MapFacts.
Context {A B : Type}.
Implicit Types (o : list (string * A)) (key : string).

Lemma obj_keys_map_props (f : A → B) o : obj_keys (map_props f o) = obj_keys o.
Proof. induction o as [|[k x] o IH]; simpl; [done|]. by f_equal. Qed.

Lemma obj_has_same_keys o (o' : list (string * B)) key :
  obj_keys o' = obj_keys o → obj_has o' key = obj_has o key.
Proof.
  revert o'. induction o as [|[k x] o IH]; intros [|[k' y] o']; simpl; try done.
  intros [= -> Hkeys]. by rewrite (IH o' Hkeys).
Qed.

Lemma obj_get_map_props (f : A → B) o key :
  obj_get (map_props f o) key = f <$> obj_get o key.
Proof.
  induction o as [|[k x] o IH]; simpl; [done|].
  by destruct (String.eqb k key).
Qed.

Lemma obj_delete_map_props (f : A → B) o key :
  obj_delete (map_props f o) key = map_props f (obj_delete o key).
Proof.
  induction o as [|[k x] o IH]; simpl; [done|].
  destruct (String.eqb k key); simpl; by rewrite IH.
Qed.

Lemma index_props_map_props (f : A → B) o :
  index_props (map_props f o) = map_props f (index_props o).
Proof.
  induction o as [|[k x] o IH]; simpl; [done|].
  destruct (is_index k); simpl; by rewrite IH.
Qed.

Lemma name_props_map_props (f : A → B) o :
  name_props (map_props f o) = map_props f (name_props o).
Proof.
  induction o as [|[k x] o IH]; simpl; [done|].
  destruct (negb (is_index k)); simpl; by rewrite IH.
Qed.

Lemma map_props_cons (f : A → B) key x o :
  map_props f ((key, x) :: o) = (key, f x) :: map_props f o.
Proof. reflexivity. Qed.

Lemma map_props_app (f : A → B) o1 o2 :
  map_props f (o1 ++ o2) = map_props f o1 ++ map_props f o2.
Proof. apply map_app. Qed.

Lemma each_prop_keys (f : A → Outcome B) o fs :
  each_prop f o = Return fs → obj_keys fs = obj_keys o.
Proof.
  revert fs. induction o as [|[k x] o IH]; intros fs; simpl.
  - by intros [= <-].
  - destruct (f x) as [y|e]; simpl; [|done].
    destruct (each_prop f o) as [ys|e]; simpl; [|done].
    intros [= <-]. simpl. f_equal. by apply IH.
Qed.

Lemma each_prop_app (f : A → Outcome B) o1 o2 :
  each_prop f (o1 ++ o2)
  = xs ← each_prop f o1; ys ← each_prop f o2; Return (xs ++ ys).
Proof.
  induction o1 as [|[k x] o1 IH]; simpl.
  - by destruct (each_prop f o2).
  - destruct (f x) as [y|e]; simpl; [|done]. rewrite IH.
    destruct (each_prop f o1) as [xs|e]; simpl; [|done].
    by destruct (each_prop f o2).
Qed.

Lemma each_prop_split (f : A → Outcome B) o fs :
  each_prop f o = Return fs →
  each_prop f (index_props o) = Return (index_props fs) ∧
  each_prop f (name_props o) = Return (name_props fs).
Proof.
  revert fs. induction o as [|[k x] o IH]; intros fs; simpl.
  - by intros [= <-].
  - destruct (f x) as [y|e] eqn:Hx; simpl; [|done].
    destruct (each_prop f o) as [ys|e]; simpl; [|done].
    intros [= <-]. destruct (IH ys eq_refl) as [Hi Hn]. simpl.
    destruct (is_index k); simpl; rewrite ?Hx, ?Hi, ?Hn; done.
Qed.

(** Values serialised one by one and read back one by one. *)
Lemma each_prop_inverse (f : A → Outcome B) (g : B → A) o :
  Forall (fun kv => ∃ y, f (snd kv) = Return y ∧ g y = snd kv) o →
  ∃ fs, each_prop f o = Return fs ∧ map_props g fs = o.
Proof.
  induction 1 as [|[k x] o (y & Hy & Hg) _ (fs & Hfs & Hmap)]; simpl.
  - by exists [].
  - simpl in Hy, Hg. rewrite Hy, Hfs. simpl.
    exists ((k, y) :: fs). split; [done|]. simpl. by rewrite Hg, Hmap.
Qed.

Lemma each_item_inverse (f : A → Outcome B) (g : B → A) (xs : list A) :
  Forall (fun x => ∃ y, f x = Return y ∧ g y = x) xs →
  ∃ ys, each_item f xs = Return ys ∧ map g ys = xs.
Proof.
  induction 1 as [|x xs (y & Hy & Hg) _ (ys & Hys & Hmap)]; simpl.
  - by exists [].
  - rewrite Hy, Hys. simpl. exists (y :: ys). split; [done|].
    simpl. by rewrite Hg, Hmap.
Qed.

End MapFacts.

Lemma all_props_Forall {A : Type} (P : A → Prop) (o : list (string * A)) :
  all_props P o ↔ Forall (fun kv => P (snd kv)) o.
Proof.
  induction o as [|[k x] o IH]; simpl.
  - split; [constructor|done].
  - rewrite Forall_cons, IH. done.
Qed.

Lemma all_items_Forall {A : Type} (P : A → Prop) (xs : list A) :
  all_items P xs ↔ Forall P xs.
Proof.
  induction xs as [|x xs IH]; simpl.
  - split; [constructor|done].
  - rewrite Forall_cons, IH. done.
Qed.

(** ** The registry *)

Lemma is_UUID_truthy (id : UUID) : is_UUID id = true → truthy id = true.
Proof. by destruct id. Qed.

Lemma Registered_UUID reg proto id :
  Registered reg → PROTO_TO_ID reg !! proto = Some id → is_UUID id = true.
Proof.
  induction 1 as [|reg C id' Hreg IH Hid]; simpl.
  - by rewrite lookup_empty.
  - rewrite lookup_insert. case_decide; [congruence|done].
Qed.

Lemma Registered_truthy reg proto id :
  Registered reg → PROTO_TO_ID reg !! proto = Some id → truthy id = true.
Proof. eauto using is_UUID_truthy, Registered_UUID. Qed.

(** A prototype that an identifier leads to has an identifier of its own. *)
Lemma Registered_back reg id proto :
  Registered reg → ID_TO_PROTO reg !! id = Some proto →
  is_Some (PROTO_TO_ID reg !! proto).
Proof.
  induction 1 as [|reg C id' Hreg IH Hid]; simpl.
  - by rewrite lookup_empty.
  - rewrite !lookup_insert. repeat case_decide; subst; try done; eauto.
    intros [= E]. congruence.
Qed.

(** ** The two walks *)

Lemma Internalize_FObj reg props :
  InternalizeJSONProperty reg (FObj props)
  = reviver reg (SObj (map_props (InternalizeJSONProperty reg) props)).
Proof. reflexivity. Qed.

Lemma Internalize_FArr reg items :
  InternalizeJSONProperty reg (FArr items)
  = SArr (map (InternalizeJSONProperty reg) items).
Proof. reflexivity. Qed.

Lemma Internalize_FStr reg s : InternalizeJSONProperty reg (FStr s) = SStr s.
Proof. reflexivity. Qed.

Lemma reviver_tagged reg props id proto :
  obj_get props "_" = Some (SStr id) → ID_TO_PROTO reg !! id = Some proto →
  reviver reg (SObj props) = SStruct proto (obj_delete props "_").
Proof. intros Hget Hid. simpl. by rewrite Hget, Hid. Qed.

Lemma reviver_foreign reg props id :
  obj_get props "_" = Some (SStr id) → ID_TO_PROTO reg !! id = None →
  reviver reg (SObj props) = SObj props.
Proof. intros Hget Hid. simpl. by rewrite Hget, Hid. Qed.

Lemma reviver_untagged reg props :
  obj_has props "_" = false → reviver reg (SObj props) = SObj props.
Proof. intros Hno. simpl. by rewrite (obj_get_None _ _ Hno). Qed.

Lemma Serialize_Struct reg proto own id :
  obj_has own "toJSON" = false → PROTO_TO_ID reg !! proto = Some id →
  truthy id = true →
  SerializeJSONProperty reg (SStruct proto own)
  = fs ← each_prop (SerializeJSONProperty reg) own;
    Return (FObj (copy_own [("_", FStr id)] fs)).
Proof. intros Hm Hid Ht. simpl. by rewrite Hm, Hid, Ht. Qed.

(** A tagged document read back: the nodes inside first, then the reviver
    on the node, which finds [_] behind the array indices. *)
Lemma Internalize_tagged reg (fs : list (string * Field)) own id proto :
  map_props (InternalizeJSONProperty reg) fs = own →
  enumeration_order (obj_keys own) → obj_has own "_" = false →
  ID_TO_PROTO reg !! id = Some proto →
  InternalizeJSONProperty reg (FObj (copy_own [("_", FStr id)] fs))
  = SStruct proto own.
Proof.
  intros Hmap Horder Hno Hid.
  assert (Hkeys : obj_keys fs = obj_keys own)
    by (by rewrite <- Hmap, obj_keys_map_props).
  rewrite copy_own_tagged;
    [|by rewrite Hkeys|by rewrite (obj_has_same_keys own fs)].
  rewrite Internalize_FObj, map_props_app, map_props_cons, Internalize_FStr.
  rewrite <- index_props_map_props, <- name_props_map_props, Hmap.
  erewrite reviver_tagged; [|by rewrite obj_get_app_skip
    by (by apply index_props_has)|done].
  f_equal. rewrite obj_delete_app. cbn [obj_delete]. rewrite String.eqb_refl.
  rewrite (obj_delete_absent (index_props own)) by (by apply index_props_has).
  rewrite (obj_delete_absent (name_props own)) by (by apply name_props_has).
  symmetry. apply (enumeration_split None). apply Horder.
Qed.

(** Read after write, on document trees. *)
Lemma Internalize_Serialize reg v :
  Registered reg → Serde_universe reg v → tags_resolve reg v →
  numbers_kept v →
  ∃ d, SerializeJSONProperty reg v = Return d ∧ InternalizeJSONProperty reg d = v.
Proof.
  intros Hreg. unfold Serde_universe, tags_resolve, numbers_kept.
  induction v as [| |n| |proto own IH|items IH|props IH] using Serde_ind;
    intros [Hnode Hin] [Htag Htags] [Hnum Hnums];
    try (eexists; split; reflexivity).
  - destruct Hnum as [Hfinite Hwritten]. simpl. rewrite Hfinite, Hwritten.
    by eexists.
  - destruct Hnode as ([id Hid] & Horder & Hno & Hmethod).
    apply all_props_Forall in Hin, Htags, Hnums.
    destruct (each_prop_inverse (SerializeJSONProperty reg)
                (InternalizeJSONProperty reg) own) as (fs & Hfs & Hmap).
    { rewrite Forall_forall in IH, Hin, Htags, Hnums |- *. eauto. }
    rewrite (Serialize_Struct _ _ _ id), Hfs by eauto using Registered_truthy.
    eexists. split; [reflexivity|]. by apply Internalize_tagged; auto.
  - apply all_items_Forall in Hin, Htags, Hnums.
    destruct (each_item_inverse (SerializeJSONProperty reg)
                (InternalizeJSONProperty reg) items) as (ys & Hys & Hmap).
    { rewrite Forall_forall in IH, Hin, Htags, Hnums |- *. eauto. }
    simpl. rewrite Hys. eexists. split; [reflexivity|].
    by rewrite Internalize_FArr, Hmap.
  - destruct Hnode as (Horder & Hno).
    apply all_props_Forall in Hin, Htags, Hnums.
    destruct (each_prop_inverse (SerializeJSONProperty reg)
                (InternalizeJSONProperty reg) props) as (fs & Hfs & Hmap).
    { rewrite Forall_forall in IH, Hin, Htags, Hnums |- *. eauto. }
    simpl. rewrite Hfs. eexists. split; [reflexivity|].
    by rewrite Internalize_FObj, Hmap, reviver_untagged.
Qed.

Lemma registrations_snoc calls C id :
  registrations (calls ++ [(C, id)]) = Struct_register (registrations calls) C id.
Proof. unfold registrations. by rewrite fold_left_app. Qed.

Lemma Registered_registrations calls :
  Forall (fun c => is_UUID (snd c) = true) calls → Registered (registrations calls).
Proof.
  induction calls as [|[C id] calls IH] using rev_ind; intros Hids.
  - constructor.
  - apply Forall_app in Hids as [Hcalls Hid]. rewrite registrations_snoc.
    constructor; [auto|]. by inversion Hid.
Qed.

(** A class that no call of [register] has named has no identifier. *)
Lemma never_registered calls proto :
  Forall (fun c => prototype (fst c) ≠ proto) calls →
  PROTO_TO_ID (registrations calls) !! proto = None.
Proof.
  induction calls as [|[C id] calls IH] using rev_ind; intros Hnever.
  - apply lookup_empty.
  - apply Forall_app in Hnever as [Hcalls Hlast]. rewrite registrations_snoc.
    simpl. rewrite lookup_insert_ne; [auto|]. by inversion Hlast.
Qed.

Lemma Registered_type_registered reg v :
  Registered reg → Serde_universe reg v → all_nodes (type_registered reg) v.
Proof.
  intros Hreg. unfold Serde_universe.
  induction v as [| | | |proto own IH|items IH|props IH] using Serde_ind;
    intros [Hnode Hin]; (split; [|simpl]); try done.
  - destruct Hnode as ([id Hid] & _). exists id. eauto using Registered_truthy.
  - apply all_props_Forall. apply all_props_Forall in Hin.
    rewrite Forall_forall in IH, Hin |- *. eauto.
  - apply all_items_Forall. apply all_items_Forall in Hin.
    rewrite Forall_forall in IH, Hin |- *. eauto.
  - apply all_props_Forall. apply all_props_Forall in Hin.
    rewrite Forall_forall in IH, Hin |- *. eauto.
Qed.

Section Totality.
Context {A B : Type}.

Lemma each_prop_returns (f : A → Outcome B) (o : list (string * A)) :
  Forall (fun kv => ∃ y, f (snd kv) = Return y) o → ∃ fs, each_prop f o = Return fs.
Proof.
  induction 1 as [|[k x] o [y Hy] _ [fs Hfs]]; simpl.
  - by exists [].
  - simpl in Hy. rewrite Hy, Hfs. simpl. by eexists.
Qed.

Lemma each_item_returns (f : A → Outcome B) (xs : list A) :
  Forall (fun x => ∃ y, f x = Return y) xs → ∃ ys, each_item f xs = Return ys.
Proof.
  induction 1 as [|x xs [y Hy] _ [ys Hys]]; simpl.
  - by exists [].
  - rewrite Hy, Hys. simpl. by eexists.
Qed.

Lemma each_prop_throws (f : A → Outcome B) (o : list (string * A)) e :
  each_prop f o = Throw e → Exists (fun kv => f (snd kv) = Throw e) o.
Proof.
  induction o as [|[k x] o IH]; simpl; [done|].
  destruct (f x) as [y|e'] eqn:Hx; simpl.
  - destruct (each_prop f o) as [ys|e'']; simpl; [done|].
    intros [= ->]. apply Exists_cons_tl. by apply IH.
  - intros [= ->]. by apply Exists_cons_hd.
Qed.

Lemma each_item_throws (f : A → Outcome B) (xs : list A) e :
  each_item f xs = Throw e → Exists (fun x => f x = Throw e) xs.
Proof.
  induction xs as [|x xs IH]; simpl; [done|].
  destruct (f x) as [y|e'] eqn:Hx; simpl.
  - destruct (each_item f xs) as [ys|e'']; simpl; [done|].
    intros [= ->]. apply Exists_cons_tl. by apply IH.
  - intros [= ->]. by apply Exists_cons_hd.
Qed.

End Totality.

(** Serialisation returns when every class inside is registered. *)
Lemma Serialize_returns reg v :
  all_nodes (type_registered reg) v → ∃ d, SerializeJSONProperty reg v = Return d.
Proof.
  induction v as [| | | |proto own IH|items IH|props IH] using Serde_ind;
    intros [Hnode Hin]; try (eexists; reflexivity).
  - apply all_props_Forall in Hin.
    destruct (each_prop_returns (SerializeJSONProperty reg) own) as [fs Hfs].
    { rewrite Forall_forall in IH, Hin |- *. eauto. }
    destruct Hnode as (id & Hid & Ht). simpl. rewrite Hfs, Hid, Ht. simpl.
    destruct (obj_has own "toJSON"); by eexists.
  - apply all_items_Forall in Hin.
    destruct (each_item_returns (SerializeJSONProperty reg) items) as [ys Hys].
    { rewrite Forall_forall in IH, Hin |- *. eauto. }
    simpl. rewrite Hys. by eexists.
  - apply all_props_Forall in Hin.
    destruct (each_prop_returns (SerializeJSONProperty reg) props) as [fs Hfs].
    { rewrite Forall_forall in IH, Hin |- *. eauto. }
    simpl. rewrite Hfs. by eexists.
Qed.

(** What serialisation throws is the exception of [toJSON]. *)
Lemma Serialize_throws reg v :
  ∀ e, SerializeJSONProperty reg v = Throw e → e = Unregistered.
Proof.
  induction v as [| | | |proto own IH|items IH|props IH] using Serde_ind;
    intros e; simpl; try done.
  - assert (Hown : ∀ e', each_prop (SerializeJSONProperty reg) own = Throw e' →
                         e' = Unregistered).
    { intros e' He'. apply each_prop_throws in He'.
      rewrite Forall_forall in IH. apply Exists_exists in He' as (kv & Hkv & He').
      eauto. }
    destruct (each_prop (SerializeJSONProperty reg) own) as [fs|e'] eqn:Hfs; simpl.
    + destruct (obj_has own "toJSON"); [done|].
      destruct (PROTO_TO_ID reg !! proto) as [id|]; [|by intros [= <-]].
      destruct (truthy id); [done|by intros [= <-]].
    + specialize (Hown e' eq_refl) as ->.
      destruct (obj_has own "toJSON"); [by intros [= <-]|].
      destruct (PROTO_TO_ID reg !! proto) as [id|]; [|by intros [= <-]].
      destruct (truthy id); by intros [= <-].
  - destruct (each_item (SerializeJSONProperty reg) items) as [ys|e'] eqn:Hys;
      simpl; [done|]. intros [= ->]. apply each_item_throws in Hys.
    rewrite Forall_forall in IH. apply Exists_exists in Hys as (x & Hx & He).
    eauto.
  - destruct (each_prop (SerializeJSONProperty reg) props) as [fs|e'] eqn:Hfs;
      simpl; [done|]. intros [= ->]. apply each_prop_throws in Hfs.
    rewrite Forall_forall in IH. apply Exists_exists in Hfs as (kv & Hkv & He).
    eauto.
Qed.

(** ** [toJSON] inside [JSON.stringify] *)

Section FilterFacts.
Context {A : Type}.
Implicit Types (o : list (string * A)).

Lemma index_props_app o1 o2 :
  index_props (o1 ++ o2) = index_props o1 ++ index_props o2.
Proof. apply List.filter_app. Qed.

Lemma name_props_app o1 o2 :
  name_props (o1 ++ o2) = name_props o1 ++ name_props o2.
Proof. apply List.filter_app. Qed.

Lemma index_props_idem o : index_props (index_props o) = index_props o.
Proof.
  induction o as [|[k x] o IH]; simpl; [done|].
  destruct (is_index k) eqn:Hk; simpl; [rewrite Hk|]; by rewrite ?IH.
Qed.

Lemma name_props_idem o : name_props (name_props o) = name_props o.
Proof.
  induction o as [|[k x] o IH]; simpl; [done|].
  destruct (is_index k) eqn:Hk; simpl; [|rewrite Hk]; simpl; by rewrite ?IH.
Qed.

Lemma name_props_index_props o : name_props (index_props o) = [].
Proof.
  induction o as [|[k x] o IH]; simpl; [done|].
  destruct (is_index k) eqn:Hk; simpl; [rewrite Hk|]; done.
Qed.

Lemma index_props_name_props o : index_props (name_props o) = [].
Proof.
  induction o as [|[k x] o IH]; simpl; [done|].
  destruct (is_index k) eqn:Hk; simpl; [|rewrite Hk]; done.
Qed.

End FilterFacts.

(** The model of [JSON.stringify] on an instance is the call of [toJSON]
    followed by the serialisation of the object that the call returns. *)
Lemma Serialize_Struct_calls_toJSON reg proto own :
  enumeration_order (obj_keys own) → obj_has own "_" = false →
  obj_has own "toJSON" = false →
  SerializeJSONProperty reg (SStruct proto own)
  = doc ← Struct_toJSON reg proto own; SerializeJSONObject reg doc.
Proof.
  intros Horder Hno Hmethod. unfold Struct_toJSON. simpl. rewrite Hmethod.
  destruct (PROTO_TO_ID reg !! proto) as [id|]; [|done].
  destruct (truthy id); [|done]. simpl. unfold SerializeJSONObject.
  rewrite copy_own_tagged by done.
  assert (Hsplit : each_prop (SerializeJSONProperty reg) own
    = xs ← each_prop (SerializeJSONProperty reg) (index_props own);
      ys ← each_prop (SerializeJSONProperty reg) (name_props own);
      Return (xs ++ ys)).
  { rewrite <- each_prop_app. f_equal. apply (enumeration_split None), Horder. }
  rewrite each_prop_app. simpl.
  destruct (each_prop (SerializeJSONProperty reg) own) as [fs|e] eqn:Hfs.
  - destruct (each_prop_split _ _ _ Hfs) as [-> ->]. simpl.
    rewrite copy_own_tagged; [done| |].
    + by rewrite (each_prop_keys _ _ _ Hfs).
    + by rewrite (obj_has_same_keys own fs) by eauto using each_prop_keys.
  - simpl.
    destruct (each_prop (SerializeJSONProperty reg) (index_props own))
      as [xs|e1]; simpl in *; [|congruence].
    destruct (each_prop (SerializeJSONProperty reg) (name_props own))
      as [ys|e2]; simpl in *; congruence.
Qed.

(** ** Places: what is where after [parse] *)

Lemma obj_get_delete {A : Type} (o : list (string * A)) key :
  obj_get (obj_delete o key) key = None.
Proof. apply obj_get_None, obj_has_delete. Qed.

(** The reviver keeps a plain object or turns it into an instance. *)
Lemma reviver_cases reg props :
  reviver reg (SObj props) = SObj props ∨
  ∃ id proto, obj_get props "_" = Some (SStr id) ∧
    ID_TO_PROTO reg !! id = Some proto ∧
    reviver reg (SObj props) = SStruct proto (obj_delete props "_").
Proof.
  simpl. destruct (obj_get props "_") as [[| | |id| | |]|] eqn:Hget; auto.
  destruct (ID_TO_PROTO reg !! id) as [proto|] eqn:Hid; [|by left].
  right. by exists id, proto.
Qed.

Lemma Internalize_inv_FStr reg d s :
  InternalizeJSONProperty reg d = SStr s → d = FStr s.
Proof.
  destruct d; try done.
  - by intros [= <-].
  - rewrite Internalize_FObj.
    destruct (reviver_cases reg (map_props (InternalizeJSONProperty reg) props))
      as [->|(id & proto & _ & _ & ->)]; done.
Qed.

(** What the document holds at a place, the value holds there too, once
    read; the one exception is the identifier of a restored instance. *)
Lemma Internalize_at reg path : ∀ d x,
  Field_at path d = Some x →
  (last path = Some (key "_") → ∀ s, x ≠ FStr s) →
  Serde_at path (InternalizeJSONProperty reg d)
  = Some (InternalizeJSONProperty reg x).
Proof.
  induction path as [|[k|i] path IH]; intros d x Hat Hlast.
  - by injection Hat as ->.
  - destruct d as [| | | | |props]; try done. simpl in Hat.
    destruct (obj_get props k) as [y|] eqn:Hk; [|done]. simpl in Hat.
    assert (Hrest : last path = Some (key "_") → ∀ s, x ≠ FStr s).
    { intros Hl. apply Hlast. destruct path; [done|]. exact Hl. }
    specialize (IH y x Hat Hrest). rewrite Internalize_FObj.
    destruct (reviver_cases reg (map_props (InternalizeJSONProperty reg) props))
      as [->|(id & proto & Hget & _ & ->)]; simpl.
    + by rewrite obj_get_map_props, Hk.
    + destruct (String.eqb_spec k "_") as [->|Hne].
      * rewrite obj_get_map_props, Hk in Hget. injection Hget as Hy.
        apply Internalize_inv_FStr in Hy as ->.
        destruct path as [|[?|?] ?]; [|done|done]. injection Hat as <-.
        by destruct (Hlast eq_refl id).
      * by rewrite obj_get_delete_ne, obj_get_map_props, Hk by done.
  - destruct d as [| | | |items|]; try done. simpl in Hat.
    destruct (items !! i) as [y|] eqn:Hi; [|done]. simpl in Hat.
    assert (Hrest : last path = Some (key "_") → ∀ s, x ≠ FStr s).
    { intros Hl. apply Hlast. destruct path; [done|]. exact Hl. }
    specialize (IH y x Hat Hrest). rewrite Internalize_FArr. simpl.
    by rewrite list_lookup_fmap, Hi.
Qed.

(** What the value holds at a place was read from that place of the
    document. *)
Lemma Internalize_at_inv reg path : ∀ d w,
  Serde_at path (InternalizeJSONProperty reg d) = Some w →
  ∃ x, Field_at path d = Some x ∧ InternalizeJSONProperty reg x = w.
Proof.
  induction path as [|[k|i] path IH]; intros d w Hat.
  - injection Hat as <-. by exists d.
  - destruct d as [| | | | |props]; try done.
    rewrite Internalize_FObj in Hat.
    assert (Hk : (x' ← obj_get (map_props (InternalizeJSONProperty reg) props) k;
                  Serde_at path x') = Some w).
    { destruct (reviver_cases reg (map_props (InternalizeJSONProperty reg) props))
        as [Hr|(id & proto & _ & _ & Hr)]; rewrite Hr in Hat; [done|].
      simpl in Hat. destruct (String.eqb_spec k "_") as [->|Hne].
      - by rewrite obj_get_delete in Hat.
      - by rewrite obj_get_delete_ne in Hat. }
    rewrite obj_get_map_props in Hk. simpl.
    destruct (obj_get props k) as [y|]; [|done]. simpl in *. eauto.
  - destruct d as [| | | |items|]; try done.
    + rewrite Internalize_FArr in Hat. simpl in Hat.
      rewrite list_lookup_fmap in Hat. simpl.
      destruct (items !! i) as [y|]; [|done]. simpl in *. eauto.
    + rewrite Internalize_FObj in Hat.
      destruct (reviver_cases reg (map_props (InternalizeJSONProperty reg) props))
        as [Hr|(id & proto & _ & _ & Hr)]; by rewrite Hr in Hat.
Qed.

(** ** Each class registered once, under an identifier of its own *)

Lemma registrations_named calls proto id :
  PROTO_TO_ID (registrations calls) !! proto = Some id
  ∨ ID_TO_PROTO (registrations calls) !! id = Some proto →
  proto ∈ map (fun c => prototype (fst c)) calls ∧ id ∈ map snd calls.
Proof.
  induction calls as [|[C id'] calls IH] using rev_ind.
  - unfold registrations. simpl. rewrite !lookup_empty. by intros [|].
  - rewrite registrations_snoc, !map_app, !elem_of_app. simpl.
    rewrite !lookup_insert, !list_elem_of_singleton.
    intros [H|H]; case_decide as Heq; subst.
    + injection H as <-. auto.
    + destruct IH as [? ?]; auto.
    + injection H as <-. auto.
    + destruct IH as [? ?]; auto.
Qed.

(** In the intended use the two maps are inverse of each other. *)
Lemma registrations_one_to_one calls proto id :
  NoDup (map (fun c => prototype (fst c)) calls) → NoDup (map snd calls) →
  PROTO_TO_ID (registrations calls) !! proto = Some id
  ↔ ID_TO_PROTO (registrations calls) !! id = Some proto.
Proof.
  induction calls as [|[C id'] calls IH] using rev_ind.
  - unfold registrations. simpl. rewrite !lookup_empty. done.
  - rewrite registrations_snoc, !map_app. simpl.
    intros [Hprotos [Hfresh _]]%NoDup_app [Hids [Hfresh' _]]%NoDup_app.
    rewrite !lookup_insert. split; intros H.
    + destruct (decide (prototype C = proto)) as [<-|Hp].
      * simpl in H. injection H as <-. by rewrite decide_True.
      * simpl in H. rewrite decide_False; [by apply IH|]. intros <-.
        destruct (registrations_named calls proto id' (or_introl H)) as [_ Hin].
        apply (Hfresh' id' Hin). by apply list_elem_of_singleton.
    + destruct (decide (id' = id)) as [<-|Hi].
      * simpl in H. injection H as <-. by rewrite decide_True.
      * simpl in H. rewrite decide_False; [by apply IH|]. intros <-.
        destruct (registrations_named calls (prototype C) id (or_intror H))
          as [Hin _].
        apply (Hfresh (prototype C) Hin). by apply list_elem_of_singleton.
Qed.

Lemma all_nodes_always (P : Serde → Prop) v : (∀ w, P w) → all_nodes P v.
Proof.
  intros HP.
  induction v as [| | | |proto own IH|items IH|props IH] using Serde_ind;
    (split; [apply HP|]); simpl; try done.
  - by apply all_props_Forall.
  - by apply all_items_Forall.
  - by apply all_props_Forall.
Qed.

(** Then every identifier leads back to its class, in every value. *)
Lemma tags_resolve_one_to_one calls v :
  NoDup (map (fun c => prototype (fst c)) calls) → NoDup (map snd calls) →
  tags_resolve (registrations calls) v.
Proof.
  intros Hprotos Hids. apply all_nodes_always. intros [| | | |proto own| |]; try done.
  simpl. intros id. by apply registrations_one_to_one.
Qed.

(** And the accessor of a restored instance returns the identifier that the
    document carried. *)
Lemma accessor_one_to_one calls id proto :
  Forall (fun c => is_UUID (snd c) = true) calls →
  NoDup (map (fun c => prototype (fst c)) calls) → NoDup (map snd calls) →
  ID_TO_PROTO (registrations calls) !! id = Some proto →
  Struct_get_ (registrations calls) proto = Return id.
Proof.
  intros Htyped Hprotos Hids Hid.
  apply registrations_one_to_one in Hid; [|done|done].
  unfold Struct_get_. rewrite Hid.
  by rewrite (Registered_truthy (registrations calls) proto id)
    by auto using Registered_registrations.
Qed.

(** * The claims *)

(** ** The registry *)


(** A call of [register] writes one entry in each map and no other. *)
Lemma register_frame (reg : Registry) (C : Ctor) (id : UUID) :
  (∀ id', id' ≠ id →
     ID_TO_PROTO (Struct_register reg C id) !! id' = ID_TO_PROTO reg !! id') ∧
  (∀ proto, proto ≠ prototype C →
     PROTO_TO_ID (Struct_register reg C id) !! proto = PROTO_TO_ID reg !! proto).
Proof. split; intros; simpl; by rewrite lookup_insert_ne. Qed.

(** ** Decoding *)

Section Decode.
Variable JSON_parse_text : string → option Field.
Variable reg : Registry.

(** C4.  A text that the platform does not read as JSON makes [parse] throw
    the [SyntaxError] at once; a text that it reads makes [parse] return the
    whole revived value.  Every call does one or the other. *)
Theorem parse_malformed_or_full (json : string) :
  (JSON_parse_text json = None →
     Struct_parse JSON_parse_text reg json = Throw SyntaxError) ∧
  (∀ d, JSON_parse_text json = Some d →
     Struct_parse JSON_parse_text reg json
     = Return (InternalizeJSONProperty reg d)) ∧
  (Struct_parse JSON_parse_text reg json = Throw SyntaxError ∨
   ∃ v, Struct_parse JSON_parse_text reg json = Return v).
Proof.
  unfold Struct_parse. destruct (JSON_parse_text json) as [d|]; repeat split.
  - done.
  - by intros d' [= <-].
  - right. by eexists.
  - done.
  - by left.
Qed.

(** C2.  A node of the document that carries the reserved key with an
    identifier unknown to the registry: [parse] returns, and at the place of
    the node the value is a plain object, which the reviver handed back as
    it received it, with the keys of the node, the reserved key among them
    holding the identifier, and with each property read from the property
    of the node. *)
Theorem unknown_identifier_passes_through
    (json : string) (d : Field) (path : list Step)
    (props : list (string * Field)) (id : UUID) :
  JSON_parse_text json = Some d →
  Field_at path d = Some (FObj props) →
  obj_get props "_" = Some (FStr id) →
  ID_TO_PROTO reg !! id = None →
  let node := SObj (map_props (InternalizeJSONProperty reg) props) in
  ∃ v, Struct_parse JSON_parse_text reg json = Return v ∧
       Serde_at path v = Some node ∧
       reviver reg node = node ∧
       obj_keys (map_props (InternalizeJSONProperty reg) props) = obj_keys props ∧
       Serde_at [key "_"] node = Some (SStr id) ∧
       ∀ k, Serde_at [key k] node
            = InternalizeJSONProperty reg <$> obj_get props k.
Proof.
  intros Hparse Hat Hget Hid node. unfold Struct_parse. rewrite Hparse.
  assert (Hnode : reviver reg node = node).
  { apply (reviver_foreign reg _ id); [|done].
    by rewrite obj_get_map_props, Hget. }
  eexists. split; [reflexivity|]. repeat split.
  - rewrite (Internalize_at reg path d (FObj props)) by done.
    rewrite Internalize_FObj. by f_equal.
  - done.
  - apply obj_keys_map_props.
  - simpl. by rewrite obj_get_map_props, Hget.
  - intros k. simpl. rewrite obj_get_map_props.
    by destruct (obj_get props k).
Qed.

(** C8.  Where the document holds [null], a boolean or a number, the
    decoded value holds the same, and conversely; an empty array and an
    empty object are read as an empty array and an empty plain object, and
    conversely.  A string of the decoded value is the string at the same
    place of the document, and a string of the document is found at its
    place in the decoded value, unless it is the value of a reserved key.
    Strings and numbers are carried without being looked into, so control
    characters, quotes, backslashes, text outside ASCII, the largest and
    smallest safe integers and fractions are not special. *)
Theorem primitives_pass_through (d : Field) (path : list Step) :
  let v := InternalizeJSONProperty reg d in
  (Field_at path d = Some FNull ↔ Serde_at path v = Some SNull) ∧
  (∀ b, Field_at path d = Some (FBool b) ↔ Serde_at path v = Some (SBool b)) ∧
  (∀ n, Field_at path d = Some (FNum n) ↔ Serde_at path v = Some (SNum n)) ∧
  (∀ s, Serde_at path v = Some (SStr s) → Field_at path d = Some (FStr s)) ∧
  (∀ s, Field_at path d = Some (FStr s) → last path ≠ Some (key "_") →
        Serde_at path v = Some (SStr s)) ∧
  (Field_at path d = Some (FArr []) ↔ Serde_at path v = Some (SArr [])) ∧
  (Field_at path d = Some (FObj []) ↔ Serde_at path v = Some (SObj [])).
Proof.
  intros v. subst v.
  assert (Hinv : ∀ w, Serde_at path (InternalizeJSONProperty reg d) = Some w →
            ∃ x, Field_at path d = Some x ∧ InternalizeJSONProperty reg x = w)
    by apply Internalize_at_inv.
  assert (Hshape : ∀ x, InternalizeJSONProperty reg x
      = match x with
        | FNull => SNull | FBool b => SBool b | FNum n => SNum n
        | FStr s => SStr s
        | FArr items => SArr (map (InternalizeJSONProperty reg) items)
        | FObj props =>
            reviver reg (SObj (map_props (InternalizeJSONProperty reg) props))
        end) by (by intros []).
  assert (Hobj : ∀ props w,
      reviver reg (SObj (map_props (InternalizeJSONProperty reg) props)) = w →
      match w with
      | SStruct _ _ => True
      | SObj o => o = map_props (InternalizeJSONProperty reg) props
      | _ => False
      end).
  { intros props w <-.
    destruct (reviver_cases reg (map_props (InternalizeJSONProperty reg) props))
      as [->|(id & proto & _ & _ & ->)]; done. }
  repeat split.
  - intros H. by rewrite (Internalize_at reg path d FNull).
  - intros (x & Hx & Hw)%Hinv. rewrite Hshape in Hw.
    destruct x; try done. by apply Hobj in Hw.
  - intros H. by rewrite (Internalize_at reg path d (FBool b)).
  - intros (x & Hx & Hw)%Hinv. rewrite Hshape in Hw.
    destruct x; try done; [congruence|]. by apply Hobj in Hw.
  - intros H. by rewrite (Internalize_at reg path d (FNum n)).
  - intros (x & Hx & Hw)%Hinv. rewrite Hshape in Hw.
    destruct x; try done; [congruence|]. by apply Hobj in Hw.
  - intros s (x & Hx & Hw)%Hinv. by apply Internalize_inv_FStr in Hw as ->.
  - intros s H Hlast. by rewrite (Internalize_at reg path d (FStr s)).
  - intros H. by rewrite (Internalize_at reg path d (FArr [])).
  - intros (x & Hx & Hw)%Hinv. rewrite Hshape in Hw.
    destruct x as [| | | |items|props]; try done.
    + injection Hw as Hw. apply map_eq_nil in Hw. by subst.
    + by apply Hobj in Hw.
  - intros H. by rewrite (Internalize_at reg path d (FObj [])).
  - intros (x & Hx & Hw)%Hinv. rewrite Hshape in Hw.
    destruct x as [| | | |items|props]; try done.
    apply Hobj in Hw. symmetry in Hw. apply map_eq_nil in Hw. by subst.
Qed.

End Decode.

(** C5.  A node of the document whose identifier the registry knows: at its
    place the value is an instance of the class that the identifier leads
    to; the reserved key is not among its own properties; the accessor [_]
    returns the identifier under which that class is registered now, which
    is the identifier of the document when the registry maps the class to
    it. *)
Theorem reserved_key_hidden
    (JSON_parse_text : string → option Field) (reg : Registry)
    (json : string) (d : Field) (path : list Step)
    (props : list (string * Field)) (id : UUID) (proto : Proto) :
  Registered reg →
  JSON_parse_text json = Some d →
  Field_at path d = Some (FObj props) →
  obj_get props "_" = Some (FStr id) →
  ID_TO_PROTO reg !! id = Some proto →
  ∃ v own id',
    Struct_parse JSON_parse_text reg json = Return v ∧
    Serde_at path v = Some (SStruct proto own) ∧
    obj_has own "_" = false ∧ ("_" ∉ obj_keys own) ∧
    PROTO_TO_ID reg !! proto = Some id' ∧
    Struct_get_ reg proto = Return id' ∧
    (PROTO_TO_ID reg !! proto = Some id → Struct_get_ reg proto = Return id).
Proof.
  intros Hreg Hparse Hat Hget Hid.
  destruct (Registered_back reg id proto Hreg Hid) as [id' Hid'].
  pose proof (Registered_truthy reg proto id' Hreg Hid') as Ht.
  exists (InternalizeJSONProperty reg d),
    (obj_delete (map_props (InternalizeJSONProperty reg) props) "_"), id'.
  unfold Struct_parse, Struct_get_. rewrite Hparse, Hid', Ht. repeat split.
  - rewrite (Internalize_at reg path d (FObj props)) by done.
    rewrite Internalize_FObj. f_equal.
    apply (reviver_tagged reg _ id); [|done].
    by rewrite obj_get_map_props, Hget.
  - apply obj_has_delete.
  - apply obj_has_not_elem, obj_has_delete.
  - by intros [= ->].
Qed.

(** C10.  Restoring is done on the node that was read: the instance has the
    prototype that the identifier leads to, and its own properties are the
    properties of the node other than the reserved one, each read from the
    document, in the order of the document.  A constructor is known to the
    registry by its prototype alone, so what [new] would do (arguments,
    defaults, checks) has no part in the result. *)
Theorem restore_without_constructor
    (reg : Registry) (id : UUID) (proto : Proto) (props : list (string * Field)) :
  obj_get props "_" = Some (FStr id) →
  ID_TO_PROTO reg !! id = Some proto →
  let own := obj_delete (map_props (InternalizeJSONProperty reg) props) "_" in
  InternalizeJSONProperty reg (FObj props) = SStruct proto own ∧
  obj_keys own = List.filter (fun k => negb (String.eqb k "_")) (obj_keys props) ∧
  (∀ k, k ≠ "_" →
        obj_get own k = InternalizeJSONProperty reg <$> obj_get props k) ∧
  (∀ (reg0 : Registry) (C C' : Ctor) (id0 : UUID),
        prototype C' = prototype C →
        Struct_register reg0 C' id0 = Struct_register reg0 C id0).
Proof.
  intros Hget Hid own. repeat split.
  - rewrite Internalize_FObj. apply (reviver_tagged reg _ id); [|done].
    by rewrite obj_get_map_props, Hget.
  - unfold own. by rewrite obj_keys_delete, obj_keys_map_props.
  - intros k Hk. unfold own.
    by rewrite obj_get_delete_ne, obj_get_map_props.
  - intros reg0 C C' id0 HC'. unfold Struct_register. by rewrite HC'.
Qed.

(** C9.  A descriptor registered under [id1] and then under another
    identifier [id2]: the entry of [id1] stays in [ID_TO_PROTO], so a node
    tagged [id1] is still restored to the descriptor, while [toJSON] on an
    instance of it writes [id2]. *)
Theorem old_identifier_still_restores
    (reg : Registry) (C : Ctor) (id1 id2 : UUID)
    (props : list (string * Field)) (own : list (string * Serde)) :
  id1 ≠ id2 → is_UUID id2 = true →
  obj_get props "_" = Some (FStr id1) →
  let reg' := Struct_register (Struct_register reg C id1) C id2 in
  ID_TO_PROTO reg' !! id1 = Some (prototype C) ∧
  InternalizeJSONProperty reg' (FObj props)
  = SStruct (prototype C)
      (obj_delete (map_props (InternalizeJSONProperty reg') props) "_") ∧
  PROTO_TO_ID reg' !! prototype C = Some id2 ∧
  Struct_toJSON reg' (prototype C) own = Return (copy_own [("_", SStr id2)] own).
Proof.
  intros Hne Hid2 Hget reg'.
  assert (H1 : ID_TO_PROTO reg' !! id1 = Some (prototype C)).
  { simpl. rewrite lookup_insert_ne by done. apply lookup_insert_eq. }
  assert (H2 : PROTO_TO_ID reg' !! prototype C = Some id2)
    by apply lookup_insert_eq.
  repeat split; try done.
  - rewrite Internalize_FObj. apply (reviver_tagged reg' _ id1); [|done].
    by rewrite obj_get_map_props, Hget.
  - unfold Struct_toJSON. by rewrite H2, (is_UUID_truthy id2).
Qed.

(** ** Encoding *)

Lemma once_registered calls proto :
  Exists (fun c => prototype (fst c) = proto) calls →
  is_Some (PROTO_TO_ID (registrations calls) !! proto).
Proof.
  induction calls as [|[C id] calls IH] using rev_ind; intros Hsome.
  - by apply Exists_nil in Hsome.
  - rewrite registrations_snoc. simpl.
    destruct (decide (prototype C = proto)) as [->|Hne].
    + rewrite lookup_insert_eq. by eexists.
    + rewrite lookup_insert_ne by done. apply IH.
      apply Exists_app in Hsome as [Hsome|Hlast]; [done|].
      apply Exists_cons in Hlast as [Hlast|Hnil]; [done|].
      by apply Exists_nil in Hnil.
Qed.

Section Encode.
Variable JSON_print_text : Field → string.

(** C3.  In the registry left by the calls of [register] of a program:
    [toJSON] on an instance of a class that no call named throws the
    [Error] "Unregistered type/prototype", and so does [JSON.stringify],
    which then returns no text; a throw of [JSON.stringify] is always that
    exception, raised for a class inside the value that has no identifier;
    on an instance of a class that a call named, [toJSON] returns the tagged
    copy, and [JSON.stringify] returns a text when every class inside the
    value is registered. *)
Theorem encode_unregistered_type (calls : list (Ctor * string)) :
  Forall (fun c => is_UUID (snd c) = true) calls →
  let reg := registrations calls in
  (∀ proto own, Forall (fun c => prototype (fst c) ≠ proto) calls →
     Struct_toJSON reg proto own = Throw Unregistered ∧
     (obj_has own "toJSON" = false →
      JSON_stringify JSON_print_text reg (SStruct proto own) = Throw Unregistered)) ∧
  (∀ v e, JSON_stringify JSON_print_text reg v = Throw e →
     e = Unregistered ∧ ¬ all_nodes (type_registered reg) v) ∧
  (∀ proto own, Exists (fun c => prototype (fst c) = proto) calls →
     ∃ id, PROTO_TO_ID reg !! proto = Some id ∧
           Struct_toJSON reg proto own = Return (copy_own [("_", SStr id)] own)) ∧
  (∀ v, all_nodes (type_registered reg) v →
     ∃ d, JSON_stringify JSON_print_text reg v = Return (JSON_print_text d)).
Proof.
  intros Hids reg. subst reg.
  pose proof (Registered_registrations calls Hids) as Hreg. repeat split.
  - unfold Struct_toJSON. by rewrite never_registered.
  - intros Hmethod. unfold JSON_stringify. simpl.
    by rewrite Hmethod, never_registered.
  - unfold JSON_stringify in H.
    destruct (SerializeJSONProperty (registrations calls) v) as [d|e'] eqn:Hv;
      [done|].
    injection H as <-. by apply Serialize_throws in Hv.
  - intros Hall. apply Serialize_returns in Hall as [d Hd].
    unfold JSON_stringify in H. by rewrite Hd in H.
  - intros proto own [id Hid]%once_registered. exists id. split; [done|].
    unfold Struct_toJSON.
    by rewrite Hid, (Registered_truthy (registrations calls) proto id).
  - intros v [d Hd]%Serialize_returns. exists d.
    unfold JSON_stringify. by rewrite Hd.
Qed.

(** C6.  For an instance of a registered class inside the universe,
    [toJSON] returns the own properties of the instance under their keys
    together with the reserved key holding the identifier, and
    [JSON.stringify] writes the document with the same keys whose values are
    the serialised values of the properties.  The order is that of an
    object: the properties whose keys are array indices, ascending, then
    the reserved key, then the other properties in the order of the
    instance; the reserved key is first when no key is an array index.
    No instance in the value has an own property [__proto__], the key on
    which the assignment of [toJSON] depends on the platform. *)
Theorem encode_document_order
    (reg : Registry) (proto : Proto) (own : list (string * Serde)) :
  Registered reg → Serde_universe reg (SStruct proto own) →
  ordinary_keys (SStruct proto own) →
  ∃ id fs,
    PROTO_TO_ID reg !! proto = Some id ∧
    Struct_toJSON reg proto own
    = Return (index_props own ++ ("_", SStr id) :: name_props own) ∧
    each_prop (SerializeJSONProperty reg) own = Return fs ∧
    obj_keys fs = obj_keys own ∧
    SerializeJSONProperty reg (SStruct proto own)
    = Return (FObj (index_props fs ++ ("_", FStr id) :: name_props fs)) ∧
    JSON_stringify JSON_print_text reg (SStruct proto own)
    = Return (JSON_print_text
                (FObj (index_props fs ++ ("_", FStr id) :: name_props fs))) ∧
    (index_props own = [] →
     SerializeJSONProperty reg (SStruct proto own)
     = Return (FObj (("_", FStr id) :: fs))).
Proof.
  intros Hreg Hu _.
  pose proof (Registered_type_registered reg _ Hreg Hu) as [_ Hin].
  destruct Hu as [([id Hid] & Horder & Hno & Hmethod) _].
  pose proof (Registered_truthy reg proto id Hreg Hid) as Ht.
  destruct (each_prop_returns (SerializeJSONProperty reg) own) as [fs Hfs].
  { simpl in Hin. apply all_props_Forall in Hin.
    eapply Forall_impl; [exact Hin|]. intros kv. apply Serialize_returns. }
  pose proof (each_prop_keys _ _ _ Hfs) as Hkeys.
  assert (Hdoc : SerializeJSONProperty reg (SStruct proto own)
    = Return (FObj (index_props fs ++ ("_", FStr id) :: name_props fs))).
  { rewrite (Serialize_Struct reg proto own id), Hfs by done. simpl.
    rewrite copy_own_tagged; [done|by rewrite Hkeys|].
    by rewrite (obj_has_same_keys own fs). }
  exists id, fs. repeat split; try done.
  - unfold Struct_toJSON. rewrite Hid, Ht. by rewrite copy_own_tagged.
  - unfold JSON_stringify. by rewrite Hdoc.
  - intros Hnone. rewrite Hdoc.
    assert (Hs : fs = index_props fs ++ name_props fs).
    { apply (enumeration_split None). rewrite Hkeys. apply Horder. }
    destruct (each_prop_split _ _ _ Hfs) as [Hi _]. rewrite Hnone in Hi.
    injection Hi as Hi. rewrite <- Hi in Hs |- *. simpl in *. by rewrite <- Hs.
Qed.

(** C1.  Round trip.  In a registry where the identifier of each class
    occurring in [v] leads back to that class, and for a value [v] of the
    universe whose numbers are finite and not [-0], none of whose instances
    has an own property [__proto__], and whose document the platform reads
    back from the text it writes: [JSON.stringify] returns a text, and
    [parse] of that text returns [v]: the same prototype, through which the
    operations of the class are found, and the same own properties in the
    same order, at every depth. *)
Theorem roundtrip_restores_value
    (JSON_parse_text : string → option Field) (reg : Registry) (v : Serde) :
  Registered reg → Serde_universe reg v → tags_resolve reg v →
  numbers_kept v → ordinary_keys v →
  (∀ d, SerializeJSONProperty reg v = Return d →
        JSON_parse_text (JSON_print_text d) = Some d) →
  ∃ text,
    JSON_stringify JSON_print_text reg v = Return text ∧
    Struct_parse JSON_parse_text reg text = Return v.
Proof.
  intros Hreg Hu Htags Hnums _ Htext.
  destruct (Internalize_Serialize reg v Hreg Hu Htags Hnums) as (d & Hd & Hv).
  exists (JSON_print_text d). unfold JSON_stringify, Struct_parse.
  by rewrite Hd, (Htext d Hd), Hv.
Qed.

End Encode.

(** * The demo classes under the theorems *)

Module DemoFacts.
Import Demo.

Lemma calls_typed : Forall (fun c => is_UUID (snd c) = true) calls.
Proof. repeat constructor. Qed.

Lemma registry_Registered : Registered registry.
Proof. apply Registered_registrations, calls_typed. Qed.

Lemma Some42_in_universe : Serde_universe registry Some42.
Proof. in_universe. Qed.

Lemma Pair12_in_universe : Serde_universe registry Pair12.
Proof. in_universe. Qed.

Lemma Some42_tags_resolve : tags_resolve registry Some42.
Proof.
  repeat split. intros id Hid. vm_compute in Hid. injection Hid as <-.
  reflexivity.
Qed.

Lemma Some42_numbers_kept : numbers_kept Some42.
Proof. split; [done|]. split; [by split|done]. Qed.

Lemma Some42_ordinary_keys : ordinary_keys Some42.
Proof. split; [done|]. split; [by split|done]. Qed.

Lemma Pair12_ordinary_keys : ordinary_keys Pair12.
Proof. split; [done|]. repeat (split; [by split|]). done. Qed.

Lemma Some42_text_read_back d :
  SerializeJSONProperty registry Some42 = Return d →
  sample_read (sample_write d) = Some d.
Proof. intros Hd. vm_compute in Hd. injection Hd as <-. reflexivity. Qed.

(** [Struct.parse(JSON.stringify(new Some(42))).unwrapOr(0) === 42]. *)
Example Some42_unwrapOr_after_roundtrip :
  (text ← JSON_stringify sample_write registry Some42;
   v ← Struct_parse sample_read registry text;
   unwrapOr v (SNum (num 0)))
  = Return (Some (SNum (num 42))).
Proof. reflexivity. Qed.

(** [new Some(new Some(new Some(42)))] written and read back, and unwrapped
    layer by layer. *)
Example nested_Some_roundtrip :
  let inner := SStruct Some_prototype [("v", SNum (num 42))] in
  let nested :=
    SStruct Some_prototype [("v", SStruct Some_prototype [("v", inner)])] in
  (d ← SerializeJSONProperty registry nested;
   Return (InternalizeJSONProperty registry d)) = Return nested ∧
  SerializeJSONProperty registry nested
  = Return (FObj [("_", FStr Some_id);
                  ("v", FObj [("_", FStr Some_id);
                              ("v", FObj [("_", FStr Some_id);
                                          ("v", FNum (num 42))])])]).
Proof. split; reflexivity. Qed.

(** [[new Some(1), new None(), new Some(2), new None()]] written and read
    back: the elements answer [isSome] in turn. *)
Example mixed_array_roundtrip :
  let some (n : Z) := SStruct Some_prototype [("v", SNum (num n))] in
  let none := SStruct None_prototype [] in
  let arr := SArr [some 1%Z; none; some 2%Z; none] in
  (d ← SerializeJSONProperty registry arr;
   Return (InternalizeJSONProperty registry d)) = Return arr ∧
  each_item isSome [some 1%Z; none; some 2%Z; none]
  = Return [true; false; true; false].
Proof. split; reflexivity. Qed.

(** The edge values of the tests are read as they stand. *)
Example edge_values_read :
  InternalizeJSONProperty registry edge_doc
  = SObj [("large", SNum (num 9007199254740991));
          ("small", SNum (num (-9007199254740991)));
          ("float", SNum (Finite (QArith_base.Qmake 314159 100000)));
          ("lines", SStr ("line1" +:+ String "010" ("line2" +:+ String "009" "col2")));
          ("quote", SStr ("He said " +:+ quoted "hello"));
          ("backslash", SStr "path\to\file");
          ("unicode", SStr "Hello 世界");
          ("nothing", SNull);
          ("flag", SBool true);
          ("list", SArr []);
          ("record", SObj [])].
Proof. reflexivity. Qed.

(** No call of [new Some(...)] makes the instance that [parse] makes of a
    tagged document without the field [v]. *)
Example bare_Some_not_constructed args :
  InternalizeJSONProperty registry bare_Some_doc = SStruct Some_prototype [] ∧
  construct Some_ args ≠ Some (SStruct Some_prototype []).
Proof.
  split; [reflexivity|]. unfold construct.
  destruct args as [|v [|w args]]; simpl; congruence.
Qed.

End DemoFacts.

(** * Witnesses and counterexamples *)

(** C1 fails in three ways.  Where two classes share an identifier: [Some]
    and [None] are both registered under the identifier of [Some], and
    [new Some(42)] is written and read back as an instance of [None] with
    the field [v], on which [unwrapOr(0)] answers [0] and not [42].  Where a
    number is not finite: [new Some(NaN)] is written with [null] for the
    field and read back as [Some(null)].  Where a number is [-0]:
    [new Some(-0)] is written as [new Some(0)] is and read back as that. *)
Lemma roundtrip_changes_value :
  (let reg := Demo.registry_clash in
   let decoded := SStruct Demo.None_prototype [("v", SNum (Demo.num 42))] in
   Registered reg ∧ Serde_universe reg Demo.Some42 ∧
   JSON_stringify Demo.sample_write reg Demo.Some42 = Return Demo.Some42_text ∧
   Struct_parse Demo.sample_read reg Demo.Some42_text = Return decoded ∧
   decoded ≠ Demo.Some42 ∧
   Demo.unwrapOr Demo.Some42 (SNum (Demo.num 0))
   = Return (Some (SNum (Demo.num 42))) ∧
   Demo.unwrapOr decoded (SNum (Demo.num 0))
   = Return (Some (SNum (Demo.num 0)))) ∧
  (let reg := Demo.registry in
   let decoded := SStruct Demo.Some_prototype [("v", SNull)] in
   Registered reg ∧ Serde_universe reg Demo.SomeNaN ∧
   tags_resolve reg Demo.SomeNaN ∧
   JSON_stringify Demo.sample_write reg Demo.SomeNaN = Return Demo.SomeNaN_text ∧
   Struct_parse Demo.sample_read reg Demo.SomeNaN_text = Return decoded ∧
   decoded ≠ Demo.SomeNaN ∧
   Demo.unwrapOr Demo.SomeNaN (SNum (Demo.num 0)) = Return (Some (SNum NaN)) ∧
   Demo.unwrapOr decoded (SNum (Demo.num 0)) = Return (Some SNull)) ∧
  (let reg := Demo.registry in
   let decoded := SStruct Demo.Some_prototype [("v", SNum (Demo.num 0))] in
   Registered reg ∧ Serde_universe reg Demo.SomeNegZero ∧
   tags_resolve reg Demo.SomeNegZero ∧
   JSON_stringify Demo.sample_write reg Demo.SomeNegZero
   = Return Demo.Some0_text ∧
   Struct_parse Demo.sample_read reg Demo.Some0_text = Return decoded ∧
   decoded ≠ Demo.SomeNegZero ∧
   Demo.unwrapOr Demo.SomeNegZero (SNum (Demo.num 1))
   = Return (Some (SNum NegZero)) ∧
   Demo.unwrapOr decoded (SNum (Demo.num 1))
   = Return (Some (SNum (Demo.num 0)))).
Proof.
  split; [|split].
  - repeat split; try reflexivity; try compute_done.
    + unfold Demo.registry_clash. registered.
    + discriminate.
  - split; [exact DemoFacts.registry_Registered|].
    repeat split; try reflexivity; try compute_done.
    + intros id Hid. vm_compute in Hid. by injection Hid as <-.
    + discriminate.
  - split; [exact DemoFacts.registry_Registered|].
    repeat split; try reflexivity; try compute_done.
    + intros id Hid. vm_compute in Hid. by injection Hid as <-.
    + discriminate.
Qed.

(** C1 on [new Some(42)] under the registry of the demo. *)
Lemma roundtrip_restores_value_witness :
  (Registered Demo.registry ∧ Serde_universe Demo.registry Demo.Some42 ∧
   tags_resolve Demo.registry Demo.Some42 ∧ numbers_kept Demo.Some42 ∧
   ordinary_keys Demo.Some42 ∧
   ∀ d, SerializeJSONProperty Demo.registry Demo.Some42 = Return d →
        Demo.sample_read (Demo.sample_write d) = Some d) ∧
  ∃ text,
    JSON_stringify Demo.sample_write Demo.registry Demo.Some42 = Return text ∧
    Struct_parse Demo.sample_read Demo.registry text = Return Demo.Some42.
Proof.
  pose proof DemoFacts.registry_Registered as H1.
  pose proof DemoFacts.Some42_in_universe as H2.
  pose proof DemoFacts.Some42_tags_resolve as H3.
  pose proof DemoFacts.Some42_text_read_back as H4.
  pose proof DemoFacts.Some42_numbers_kept as H5.
  pose proof DemoFacts.Some42_ordinary_keys as H6.
  split; [done|].
  exact (roundtrip_restores_value Demo.sample_write Demo.sample_read
           Demo.registry Demo.Some42 H1 H2 H3 H5 H6 H4).
Defined.

(** C2 on [{ value: { _: "00000000-...", data: "test" } }], the document of
    the test of unknown identifiers. *)
Lemma unknown_identifier_passes_through_witness :
  (Demo.sample_read Demo.wrapped_foreign_text = Some Demo.wrapped_foreign_doc ∧
   ID_TO_PROTO Demo.registry !! Demo.unknown_id = None) ∧
  ∃ v, Struct_parse Demo.sample_read Demo.registry Demo.wrapped_foreign_text
       = Return v ∧
       Serde_at [key "value"] v
       = Some (SObj [("_", SStr Demo.unknown_id); ("data", SStr "test")]).
Proof.
  split; [split; reflexivity|].
  destruct (unknown_identifier_passes_through Demo.sample_read Demo.registry
              Demo.wrapped_foreign_text Demo.wrapped_foreign_doc [key "value"]
              [("_", FStr Demo.unknown_id); ("data", FStr "test")]
              Demo.unknown_id eq_refl eq_refl eq_refl eq_refl)
    as (v & Hv & Hat & _).
  exists v. split; [exact Hv|exact Hat].
Defined.

(** C3 on an instance of a class without a static block. *)
Lemma encode_unregistered_type_witness :
  Forall (fun c => is_UUID (snd c) = true) Demo.calls ∧
  Forall (fun c => prototype (fst c) ≠ Demo.Unregistered_prototype) Demo.calls ∧
  Struct_toJSON Demo.registry Demo.Unregistered_prototype
    [("value", SNum (Demo.num 42))] = Throw Unregistered ∧
  JSON_stringify Demo.sample_write Demo.registry
    (SStruct Demo.Unregistered_prototype [("value", SNum (Demo.num 42))])
  = Throw Unregistered.
Proof.
  assert (Hnever : Forall (fun c => prototype (fst c) ≠ Demo.Unregistered_prototype)
                     Demo.calls) by (repeat constructor; discriminate).
  split; [exact DemoFacts.calls_typed|]. split; [exact Hnever|].
  destruct (encode_unregistered_type Demo.sample_write Demo.calls
              DemoFacts.calls_typed) as (Hthrow & _).
  destruct (Hthrow Demo.Unregistered_prototype [("value", SNum (Demo.num 42))]
              Hnever) as [H1 H2].
  split; [exact H1|exact (H2 eq_refl)].
Defined.

(** C4 on a text that is not JSON and on the text of the empty array. *)
Lemma parse_malformed_or_full_witness :
  (Demo.sample_read "{ invalid json }" = None ∧
   Demo.sample_read "[]" = Some (FArr [])) ∧
  Struct_parse Demo.sample_read Demo.registry "{ invalid json }"
  = Throw SyntaxError ∧
  Struct_parse Demo.sample_read Demo.registry "[]" = Return (SArr []).
Proof.
  split; [split; reflexivity|]. split.
  - exact (proj1 (parse_malformed_or_full Demo.sample_read Demo.registry
                    "{ invalid json }") eq_refl).
  - exact (proj1 (proj2 (parse_malformed_or_full Demo.sample_read Demo.registry
                           "[]")) (FArr []) eq_refl).
Defined.

(** C5 fails where a class has been registered again: [Some] is registered
    under its identifier and then under another; a document tagged with the
    first identifier is restored to an instance of [Some], whose accessor
    returns the second. *)
Lemma accessor_after_retagging :
  let reg := Demo.registry_retagged in
  Registered reg ∧
  Demo.sample_read Demo.Some42_text = Some Demo.Some42_doc ∧
  Field_at [key "_"] Demo.Some42_doc = Some (FStr Demo.Some_id) ∧
  ID_TO_PROTO reg !! Demo.Some_id = Some Demo.Some_prototype ∧
  Struct_parse Demo.sample_read reg Demo.Some42_text = Return Demo.Some42 ∧
  Struct_get_ reg Demo.Some_prototype = Return Demo.other_id ∧
  Demo.other_id ≠ Demo.Some_id.
Proof.
  repeat split; try reflexivity.
  - unfold Demo.registry_retagged. registered.
  - discriminate.
Qed.

(** C5 on the document of [new Some(42)] under the registry of the demo. *)
Lemma reserved_key_hidden_witness :
  (Registered Demo.registry ∧
   Demo.sample_read Demo.Some42_text = Some Demo.Some42_doc ∧
   ID_TO_PROTO Demo.registry !! Demo.Some_id = Some Demo.Some_prototype) ∧
  ∃ v own id',
    Struct_parse Demo.sample_read Demo.registry Demo.Some42_text = Return v ∧
    Serde_at [] v = Some (SStruct Demo.Some_prototype own) ∧
    obj_has own "_" = false ∧ ("_" ∉ obj_keys own) ∧
    PROTO_TO_ID Demo.registry !! Demo.Some_prototype = Some id' ∧
    Struct_get_ Demo.registry Demo.Some_prototype = Return id' ∧
    (PROTO_TO_ID Demo.registry !! Demo.Some_prototype = Some Demo.Some_id →
     Struct_get_ Demo.registry Demo.Some_prototype = Return Demo.Some_id).
Proof.
  pose proof DemoFacts.registry_Registered as H1.
  split; [repeat split; done|].
  exact (reserved_key_hidden Demo.sample_read Demo.registry Demo.Some42_text
           Demo.Some42_doc [] [("_", FStr Demo.Some_id); ("v", FNum (Demo.num 42))]
           Demo.Some_id Demo.Some_prototype H1 eq_refl eq_refl eq_refl eq_refl).
Defined.

(** C6 fails on an instance with numbered fields: the document of the pair
    lists the fields [0] and [1] before the reserved key. *)
Lemma reserved_key_behind_indices :
  Registered Demo.registry ∧ Serde_universe Demo.registry Demo.Pair12 ∧
  Struct_toJSON Demo.registry Demo.Pair_prototype
    [("0", SNum (Demo.num 1)); ("1", SNum (Demo.num 2))]
  = Return [("0", SNum (Demo.num 1)); ("1", SNum (Demo.num 2));
            ("_", SStr Demo.Pair_id)] ∧
  SerializeJSONProperty Demo.registry Demo.Pair12 = Return Demo.Pair12_doc ∧
  JSON_stringify Demo.sample_write Demo.registry Demo.Pair12
  = Return Demo.Pair12_text ∧
  (∀ props, Demo.Pair12_doc = FObj props → head (obj_keys props) ≠ Some "_").
Proof.
  split; [exact DemoFacts.registry_Registered|].
  split; [exact DemoFacts.Pair12_in_universe|].
  repeat split; try reflexivity. intros props [= <-]. discriminate.
Qed.

(** C6 on [new Some(42)]: no field is numbered, the reserved key is first. *)
Lemma encode_document_order_witness :
  (Registered Demo.registry ∧ Serde_universe Demo.registry Demo.Some42 ∧
   ordinary_keys Demo.Some42) ∧
  ∃ id fs,
    PROTO_TO_ID Demo.registry !! Demo.Some_prototype = Some id ∧
    each_prop (SerializeJSONProperty Demo.registry) [("v", SNum (Demo.num 42))]
    = Return fs ∧
    SerializeJSONProperty Demo.registry Demo.Some42
    = Return (FObj (index_props fs ++ ("_", FStr id) :: name_props fs)).
Proof.
  pose proof DemoFacts.registry_Registered as H1.
  pose proof DemoFacts.Some42_in_universe as H2.
  pose proof DemoFacts.Some42_ordinary_keys as H3.
  split; [done|].
  destruct (encode_document_order Demo.sample_write Demo.registry
              Demo.Some_prototype [("v", SNum (Demo.num 42))] H1 H2 H3)
    as (id & fs & Hid & _ & Hfs & _ & Hdoc & _).
  exists id, fs. split; [exact Hid|]. split; [exact Hfs|exact Hdoc].
Defined.



(** C8 on the largest safe integer, a text outside ASCII and an empty
    array. *)
Lemma primitives_pass_through_witness :
  (Field_at [key "large"] Demo.edge_doc
   = Some (FNum (Demo.num 9007199254740991)) ∧
   Field_at [key "unicode"] Demo.edge_doc = Some (FStr "Hello 世界") ∧
   Field_at [key "list"] Demo.edge_doc = Some (FArr [])) ∧
  Serde_at [key "large"] (InternalizeJSONProperty Demo.registry Demo.edge_doc)
  = Some (SNum (Demo.num 9007199254740991)) ∧
  Serde_at [key "unicode"] (InternalizeJSONProperty Demo.registry Demo.edge_doc)
  = Some (SStr "Hello 世界") ∧
  Serde_at [key "list"] (InternalizeJSONProperty Demo.registry Demo.edge_doc)
  = Some (SArr []).
Proof.
  split; [repeat split; reflexivity|]. split; [|split].
  - destruct (primitives_pass_through Demo.registry Demo.edge_doc [key "large"])
      as (_ & _ & Hnum & _).
    exact (proj1 (Hnum _) eq_refl).
  - destruct (primitives_pass_through Demo.registry Demo.edge_doc [key "unicode"])
      as (_ & _ & _ & _ & Hstr & _).
    apply Hstr; [reflexivity|discriminate].
  - destruct (primitives_pass_through Demo.registry Demo.edge_doc [key "list"])
      as (_ & _ & _ & _ & _ & Harr & _).
    exact (proj1 Harr eq_refl).
Defined.

(** C9 on [Some], registered under its identifier and then under another. *)
Lemma old_identifier_still_restores_witness :
  (Demo.Some_id ≠ Demo.other_id ∧ is_UUID Demo.other_id = true) ∧
  InternalizeJSONProperty Demo.registry_retagged Demo.Some42_doc = Demo.Some42 ∧
  Struct_toJSON Demo.registry_retagged Demo.Some_prototype
    [("v", SNum (Demo.num 42))]
  = Return [("_", SStr Demo.other_id); ("v", SNum (Demo.num 42))].
Proof.
  assert (Hne : Demo.Some_id ≠ Demo.other_id) by discriminate.
  split; [split; [exact Hne|reflexivity]|].
  destruct (old_identifier_still_restores Registry_init Demo.Some_
              Demo.Some_id Demo.other_id
              [("_", FStr Demo.Some_id); ("v", FNum (Demo.num 42))]
              [("v", SNum (Demo.num 42))] Hne eq_refl eq_refl)
    as (_ & Hdecode & _ & Hencode).
  split; [exact Hdecode|exact Hencode].
Defined.

(** C10 on a document tagged as [Some] with a field [w] and no field [v]:
    the instance has [w] alone, which no call of the constructor yields. *)
Lemma restore_without_constructor_witness :
  (obj_get [("_", FStr Demo.Some_id); ("w", FNum (Demo.num 1))] "_"
   = Some (FStr Demo.Some_id) ∧
   ID_TO_PROTO Demo.registry !! Demo.Some_id = Some Demo.Some_prototype) ∧
  InternalizeJSONProperty Demo.registry
    (FObj [("_", FStr Demo.Some_id); ("w", FNum (Demo.num 1))])
  = SStruct Demo.Some_prototype [("w", SNum (Demo.num 1))].
Proof.
  split; [split; reflexivity|].
  exact (proj1 (restore_without_constructor Demo.registry Demo.Some_id
                  Demo.Some_prototype
                  [("_", FStr Demo.Some_id); ("w", FNum (Demo.num 1))]
                  eq_refl eq_refl)).
Defined.

(** * Further properties of the library *)

(** ** Extensionality of the traversals *)

Lemma obj_get_None_has {A : Type} (o : list (string * A)) key :
  obj_get o key = None → obj_has o key = false.
Proof.
  induction o as [|[k x] o IH]; simpl; [done|].
  by destruct (String.eqb k key).
Qed.

Lemma map_props_ext {A B : Type} (f g : A → B) (o : list (string * A)) :
  Forall (fun kv => f (snd kv) = g (snd kv)) o → map_props f o = map_props g o.
Proof.
  induction 1 as [|[k x] o Hx _ IH]; simpl; [done|].
  simpl in Hx. by rewrite Hx, IH.
Qed.

Lemma each_prop_ext {A B : Type} (f g : A → Outcome B) (o : list (string * A)) :
  Forall (fun kv => f (snd kv) = g (snd kv)) o → each_prop f o = each_prop g o.
Proof.
  induction 1 as [|[k x] o Hx _ IH]; simpl; [done|].
  simpl in Hx. by rewrite Hx, IH.
Qed.

Lemma each_item_ext {A B : Type} (f g : A → Outcome B) (xs : list A) :
  Forall (fun x => f x = g x) xs → each_item f xs = each_item g xs.
Proof.
  induction 1 as [|x xs Hx _ IH]; simpl; [done|]. by rewrite Hx, IH.
Qed.


(** ** Assignment and lookup of own properties *)

Section AssignFacts.
Context {A : Type}.
Implicit Types (o : list (string * A)) (k key : string).

Lemma obj_get_update o key k (v : A) :
  obj_has o key = true →
  obj_get (obj_update o key v) k
  = if String.eqb key k then Some v else obj_get o k.
Proof.
  induction o as [|[k' x] o IH]; simpl; [done|].
  destruct (String.eqb_spec k' key) as [->|Hne]; simpl.
  - intros _. by destruct (String.eqb key k).
  - intros Hhas. rewrite IH by done.
    destruct (String.eqb_spec k' k) as [->|Hne']; [|done].
    apply String.eqb_neq in Hne. rewrite String.eqb_sym in Hne. by rewrite Hne.
Qed.

Lemma obj_get_insert_index o i key k (v : A) :
  obj_has o key = false →
  obj_get (obj_insert_index o i key v) k
  = if String.eqb key k then Some v else obj_get o k.
Proof.
  induction o as [|[k' x] o IH]; simpl; [done|].
  intros [Hne Hhas]%orb_false_iff.
  assert (Hk' : String.eqb key k = true → String.eqb k' k = false).
  { intros ->%String.eqb_eq. exact Hne. }
  destruct (array_index k') as [j|]; [destruct (j <? i)%N|]; simpl;
    rewrite ?IH by done;
    destruct (String.eqb key k) eqn:Hkey; try done; by rewrite Hk'.
Qed.

Lemma obj_get_app_absent o1 o2 k :
  obj_get (o1 ++ o2) k
  = match obj_get o1 k with Some v => Some v | None => obj_get o2 k end.
Proof.
  induction o1 as [|[k' x] o1 IH]; simpl; [done|].
  by destruct (String.eqb k' k).
Qed.

(** Reading after [o[key] = v]. *)
Lemma obj_get_set o key k (v : A) :
  obj_get (obj_set o key v) k
  = if String.eqb key k then Some v else obj_get o k.
Proof.
  unfold obj_set. destruct (obj_has o key) eqn:Hhas.
  - by apply obj_get_update.
  - destruct (array_index key) as [i|].
    + by apply obj_get_insert_index.
    + rewrite obj_get_app_absent. simpl.
      destruct (String.eqb_spec key k) as [->|Hne].
      * by rewrite (obj_get_None o k).
      * by destruct (obj_get o k).
Qed.

Lemma obj_has_get o k : obj_has o k = true ↔ is_Some (obj_get o k).
Proof.
  induction o as [|[k' x] o IH]; simpl.
  - split; [done|]. by intros [? ?].
  - destruct (String.eqb k' k); simpl; [|done]. split; [by eexists|done].
Qed.

(** Reading after the copy loop of [toJSON]. *)
Lemma obj_get_copy_own own : ∀ o k,
  NoDup (obj_keys own) →
  obj_get (copy_own o own) k
  = match obj_get own k with Some v => Some v | None => obj_get o k end.
Proof.
  induction own as [|[k0 v0] own IH]; intros o k Hnd; [done|].
  simpl in Hnd. apply NoDup_cons in Hnd as [Hfresh Hnd].
  rewrite copy_own_cons, IH by done. simpl. rewrite obj_get_set.
  destruct (String.eqb_spec k0 k) as [<-|Hne]; [|done].
  by rewrite (obj_get_None own k0) by (by apply obj_has_not_elem).
Qed.

Lemma length_obj_set o key (v : A) :
  length (obj_set o key v) = if obj_has o key then length o else S (length o).
Proof.
  unfold obj_set. destruct (obj_has o key) eqn:Hhas.
  - clear Hhas. induction o as [|[k x] o IH]; simpl; [done|].
    destruct (String.eqb k key); simpl; by rewrite ?IH.
  - destruct (array_index key) as [i|].
    + clear Hhas. induction o as [|[k x] o IH]; simpl; [done|].
      destruct (array_index k) as [j|]; [destruct (j <? i)%N|]; simpl;
        by rewrite ?IH.
    + rewrite length_app. simpl. lia.
Qed.

Lemma obj_has_set o key k (v : A) :
  obj_has (obj_set o key v) k = String.eqb key k || obj_has o k.
Proof.
  destruct (obj_has (obj_set o key v) k) eqn:H1.
  - apply obj_has_get in H1. rewrite obj_get_set in H1.
    destruct (String.eqb key k); [done|]. simpl. symmetry.
    by apply obj_has_get.
  - destruct (String.eqb key k) eqn:Hk; simpl.
    + assert (H2 : is_Some (obj_get (obj_set o key v) k))
        by (rewrite obj_get_set, Hk; by eexists).
      apply obj_has_get in H2. congruence.
    + destruct (obj_has o k) eqn:H3; [|done].
      apply obj_has_get in H3.
      assert (H2 : is_Some (obj_get (obj_set o key v) k))
        by (by rewrite obj_get_set, Hk).
      apply obj_has_get in H2. congruence.
Qed.

Lemma length_copy_own own : ∀ o,
  NoDup (obj_keys own) →
  (∀ k, k ∈ obj_keys own → obj_has o k = false) →
  length (copy_own o own) = length o + length own.
Proof.
  induction own as [|[k0 v0] own IH]; intros o Hnd Hfresh; [simpl; lia|].
  simpl in Hnd. apply NoDup_cons in Hnd as [Hk0 Hnd].
  rewrite copy_own_cons, IH; [| done |].
  - rewrite length_obj_set, Hfresh by apply list_elem_of_here. simpl. lia.
  - intros k Hk. rewrite obj_has_set, Hfresh by by apply list_elem_of_further.
    rewrite orb_false_r. apply String.eqb_neq. by intros ->.
Qed.

End AssignFacts.

(** ** [toJSON] and the accessor *)

(** X1.  [toJSON] and the accessor [_] go together: on a receiver whose
    class has no identifier both throw the same exception; otherwise the
    accessor returns the identifier, [toJSON] returns a document, and the
    document holds that identifier under the reserved key unless the
    receiver has an own property [_], which the copy loop then writes over
    the identifier. *)
Theorem toJSON_agrees_with_accessor
    (reg : Registry) (proto : Proto) (own : list (string * Serde)) :
  NoDup (obj_keys own) →
  (Struct_get_ reg proto = Throw Unregistered ∧
   Struct_toJSON reg proto own = Throw Unregistered) ∨
  (∃ id doc,
     Struct_get_ reg proto = Return id ∧
     Struct_toJSON reg proto own = Return doc ∧
     obj_get doc "_"
     = match obj_get own "_" with Some x => Some x | None => Some (SStr id) end).
Proof.
  intros Hnd. unfold Struct_get_, Struct_toJSON.
  destruct (PROTO_TO_ID reg !! proto) as [id|]; [|by left].
  destruct (truthy id); [|by left]. right. exists id. eexists.
  split; [done|]. split; [done|]. by rewrite obj_get_copy_own.
Qed.

(** X2.  The document that [toJSON] returns is a shallow copy: on a
    receiver without an own property [__proto__], it has every own property
    of the receiver with the value of the receiver, under the same key, it
    has no key besides those and the reserved one, and when the receiver has
    no own property [_] it has one property more than the receiver. *)
Theorem toJSON_copies_own_properties
    (reg : Registry) (proto : Proto) (own doc : list (string * Serde)) :
  NoDup (obj_keys own) → obj_has own "__proto__" = false →
  Struct_toJSON reg proto own = Return doc →
  (∀ k, obj_has own k = true → obj_get doc k = obj_get own k) ∧
  (∀ k, obj_has own k = false → k ≠ "_" → obj_get doc k = None) ∧
  (obj_has own "_" = false → length doc = S (length own)).
Proof.
  intros Hnd _. unfold Struct_toJSON.
  destruct (PROTO_TO_ID reg !! proto) as [id|]; [|done].
  destruct (truthy id); [|done]. intros [= <-]. repeat split.
  - intros k [x Hx]%obj_has_get. by rewrite obj_get_copy_own, Hx.
  - intros k Hk Hne. rewrite obj_get_copy_own, (obj_get_None own k) by done.
    simpl. apply String.eqb_neq in Hne. rewrite String.eqb_sym in Hne.
    by rewrite Hne.
  - intros Hno. rewrite length_copy_own; [done|done|].
    intros k Hk. simpl. rewrite orb_false_r. apply String.eqb_neq.
    intros <-. by apply obj_has_not_elem in Hno.
Qed.

(** ** What [parse] does with a node, by its reserved key *)

Lemma Internalize_not_SStr reg d :
  (∀ s, d ≠ FStr s) → ∀ s, InternalizeJSONProperty reg d ≠ SStr s.
Proof. intros Hd s Hs. apply Internalize_inv_FStr in Hs. by eapply Hd. Qed.

Lemma Internalize_FObj_cases reg props :
  InternalizeJSONProperty reg (FObj props)
  = match obj_get props "_" with
    | Some (FStr id) =>
        match ID_TO_PROTO reg !! id with
        | Some proto =>
            SStruct proto
              (obj_delete (map_props (InternalizeJSONProperty reg) props) "_")
        | None => SObj (map_props (InternalizeJSONProperty reg) props)
        end
    | _ => SObj (map_props (InternalizeJSONProperty reg) props)
    end.
Proof.
  rewrite Internalize_FObj.
  destruct (obj_get props "_") as [x|] eqn:Hget.
  - destruct (reviver_cases reg (map_props (InternalizeJSONProperty reg) props))
      as [Hr|(id & proto & Hid & Hproto & Hr)]; rewrite Hr.
    + destruct x as [| | |id| |]; try done.
      destruct (ID_TO_PROTO reg !! id) as [proto|] eqn:Hproto; [|done].
      rewrite (reviver_tagged reg _ id proto) in Hr; [done| |done].
      by rewrite obj_get_map_props, Hget.
    + rewrite obj_get_map_props, Hget in Hid. injection Hid as Hid.
      apply Internalize_inv_FStr in Hid as ->. by rewrite Hproto.
  - apply reviver_untagged, obj_get_None_has.
    by rewrite obj_get_map_props, Hget.
Qed.

(** ** [parse] and the registry *)

Lemma nothing_known_initially d : all_fields (tag_unknown Registry_init) d.
Proof.
  induction d as [| | | |items IH|props IH] using Field_ind; try by split.
  - split; [done|]. by apply all_items_Forall.
  - split; [|by apply all_props_Forall]. intros id _. apply lookup_empty.
Qed.

(** X3.  A document none of whose nodes carries an identifier of the
    registry is read as [JSON.parse] alone reads it: the reviver changes
    nothing.  So it is for every document while nothing is registered. *)
Theorem parse_without_known_identifier (reg : Registry) (d : Field) :
  (all_fields (tag_unknown reg) d →
   InternalizeJSONProperty reg d = Field_plain d) ∧
  InternalizeJSONProperty Registry_init d = Field_plain d.
Proof.
  assert (Hplain : ∀ reg', all_fields (tag_unknown reg') d →
                     InternalizeJSONProperty reg' d = Field_plain d);
    [|split; [apply Hplain|apply Hplain, nothing_known_initially]].
  clear reg. intros reg. induction d as [| | | |items IH|props IH] using Field_ind;
    intros [Hnode Hin]; try done.
  - apply all_items_Forall in Hin. rewrite Internalize_FArr. simpl. f_equal.
    apply map_ext_Forall. rewrite Forall_forall in IH, Hin |- *. eauto.
  - apply all_props_Forall in Hin.
    assert (Hmap : map_props (InternalizeJSONProperty reg) props
                   = map_props Field_plain props).
    { apply map_props_ext. rewrite Forall_forall in IH, Hin |- *. eauto. }
    rewrite Internalize_FObj_cases, Hmap. simpl in Hnode |- *.
    destruct (obj_get props "_") as [[| | |id| |]|]; try done.
    by rewrite (Hnode id).
Qed.

(** X4.  Registering a class under an identifier changes nothing in the
    reading of a document that does not carry that identifier. *)
Theorem register_keeps_other_documents
    (reg : Registry) (C : Ctor) (id : UUID) (d : Field) :
  all_fields (not_tagged id) d →
  InternalizeJSONProperty (Struct_register reg C id) d
  = InternalizeJSONProperty reg d.
Proof.
  induction d as [| | | |items IH|props IH] using Field_ind;
    intros [Hnode Hin]; try done.
  - apply all_items_Forall in Hin. rewrite !Internalize_FArr. f_equal.
    apply map_ext_Forall. rewrite Forall_forall in IH, Hin |- *. eauto.
  - apply all_props_Forall in Hin.
    assert (Hmap : map_props (InternalizeJSONProperty (Struct_register reg C id)) props
                   = map_props (InternalizeJSONProperty reg) props).
    { apply map_props_ext. rewrite Forall_forall in IH, Hin |- *. eauto. }
    rewrite !Internalize_FObj_cases, Hmap. simpl in Hnode.
    destruct (obj_get props "_") as [[| | |id'| |]|]; try done.
    simpl. rewrite lookup_insert_ne; [done|]. by intros ->.
Qed.

(** X5.  Registering a class changes nothing in the writing of a value
    that holds no instance of that class. *)
Theorem register_keeps_other_values
    (reg : Registry) (C : Ctor) (id : UUID) (v : Serde) :
  all_nodes (not_instance_of (prototype C)) v →
  SerializeJSONProperty (Struct_register reg C id) v
  = SerializeJSONProperty reg v.
Proof.
  induction v as [| | | |proto own IH|items IH|props IH] using Serde_ind;
    intros [Hnode Hin]; try done.
  - apply all_props_Forall in Hin.
    assert (Hown : each_prop (SerializeJSONProperty (Struct_register reg C id)) own
                   = each_prop (SerializeJSONProperty reg) own).
    { apply each_prop_ext. rewrite Forall_forall in IH, Hin |- *. eauto. }
    simpl in Hnode |- *. rewrite Hown. by rewrite lookup_insert_ne.
  - apply all_items_Forall in Hin. simpl. f_equal.
    apply each_item_ext. rewrite Forall_forall in IH, Hin |- *. eauto.
  - apply all_props_Forall in Hin. simpl. f_equal.
    apply each_prop_ext. rewrite Forall_forall in IH, Hin |- *. eauto.
Qed.

(** X6.  Two calls of [register] for different classes and different
    identifiers can be made in either order. *)
Theorem register_commutes
    (reg : Registry) (C1 C2 : Ctor) (id1 id2 : UUID) :
  prototype C1 ≠ prototype C2 → id1 ≠ id2 →
  Struct_register (Struct_register reg C1 id1) C2 id2
  = Struct_register (Struct_register reg C2 id2) C1 id1.
Proof.
  intros Hproto Hid. unfold Struct_register. simpl. f_equal.
  - by apply insert_insert_ne.
  - by apply insert_insert_ne.
Qed.

Lemma Registered_forth reg proto id :
  Registered reg → PROTO_TO_ID reg !! proto = Some id →
  is_Some (ID_TO_PROTO reg !! id).
Proof.
  induction 1 as [|reg C id' Hreg IH Hid]; simpl.
  - by rewrite lookup_empty.
  - rewrite !lookup_insert. repeat case_decide; subst; try done; eauto.
    intros [= E]. congruence.
Qed.

Lemma obj_get_Internalize_SStr reg props key s :
  obj_get (map_props (InternalizeJSONProperty reg) props) key = Some (SStr s) →
  obj_get props key = Some (FStr s).
Proof.
  rewrite obj_get_map_props. destruct (obj_get props key) as [x|]; [|done].
  intros Hs.
  change (Some (InternalizeJSONProperty reg x) = Some (SStr s)) in Hs.
  injection Hs as Hs. apply Internalize_inv_FStr in Hs. by subst.
Qed.

(** What [parse] returns is restored at every depth. *)
Lemma Internalize_restored reg d :
  all_nodes (restored reg) (InternalizeJSONProperty reg d).
Proof.
  induction d as [| | | |items IH|props IH] using Field_ind;
    try (by split).
  - rewrite Internalize_FArr. split; [done|]. simpl.
    apply all_items_Forall, Forall_map. exact IH.
  - assert (Hin : all_props (all_nodes (restored reg))
                    (map_props (InternalizeJSONProperty reg) props)).
    { apply all_props_Forall. unfold map_props. apply Forall_map.
      eapply Forall_impl; [exact IH|]. by intros []. }
    assert (Hplain : (∀ id, obj_get props "_" = Some (FStr id) →
                            ID_TO_PROTO reg !! id = None) →
              all_nodes (restored reg)
                (SObj (map_props (InternalizeJSONProperty reg) props))).
    { intros Hunknown. split; [|exact Hin]. simpl. intros id' Hid'.
      apply Hunknown. by apply (obj_get_Internalize_SStr reg). }
    rewrite Internalize_FObj_cases.
    destruct (obj_get props "_") as [[| | |id| |]|] eqn:Hget;
      try (by apply Hplain).
    destruct (ID_TO_PROTO reg !! id) as [proto|] eqn:Hid.
    + split; [split; [apply obj_has_delete|by exists id]|]. simpl.
      apply all_props_Forall. apply all_props_Forall in Hin.
      clear -Hin. induction Hin as [|[k y] o Hy _ IHo]; simpl; [done|].
      destruct (String.eqb k "_"); [done|]. by constructor.
    + apply Hplain. by intros id' [= <-].
Qed.

(** X7.  [parse] restores at every depth: in the value it makes of a
    document, whatever the document, no plain object carries an identifier
    that the registry knows, and every instance has a prototype that some
    identifier of the registry leads to and no own reserved key. *)
Theorem parse_restores_at_every_depth
    (JSON_parse_text : string → option Field) (reg : Registry)
    (json : string) (v : Serde) :
  Struct_parse JSON_parse_text reg json = Return v →
  all_nodes (restored reg) v.
Proof.
  unfold Struct_parse. destruct (JSON_parse_text json) as [d|]; [|done].
  intros [= <-]. apply Internalize_restored.
Qed.

Lemma restored_type_registered reg v :
  Registered reg → all_nodes (restored reg) v → all_nodes (type_registered reg) v.
Proof.
  intros Hreg.
  induction v as [| | | |proto own IH|items IH|props IH] using Serde_ind;
    intros [Hnode Hin]; (split; [|simpl]); try done.
  - destruct Hnode as [_ [id Hid]].
    destruct (Registered_back reg id proto Hreg Hid) as [id' Hid'].
    exists id'. eauto using Registered_truthy.
  - apply all_props_Forall. apply all_props_Forall in Hin.
    rewrite Forall_forall in IH, Hin |- *. eauto.
  - apply all_items_Forall. apply all_items_Forall in Hin.
    rewrite Forall_forall in IH, Hin |- *. eauto.
  - apply all_props_Forall. apply all_props_Forall in Hin.
    rewrite Forall_forall in IH, Hin |- *. eauto.
Qed.

(** X8.  What [parse] returns can always be written again:
    [JSON.stringify] of it does not throw, whatever the text was and
    whatever has been registered. *)
Theorem parse_result_is_serialisable
    (JSON_parse_text : string → option Field) (JSON_print_text : Field → string)
    (reg : Registry) (json : string) (v : Serde) :
  Registered reg →
  Struct_parse JSON_parse_text reg json = Return v →
  ∃ text, JSON_stringify JSON_print_text reg v = Return text.
Proof.
  intros Hreg. unfold Struct_parse.
  destruct (JSON_parse_text json) as [d|]; [|done]. intros [= <-].
  destruct (Serialize_returns reg (InternalizeJSONProperty reg d)) as [d' Hd'].
  { apply restored_type_registered; [done|]. apply Internalize_restored. }
  unfold JSON_stringify. rewrite Hd'. by eexists.
Qed.

(** ** The intended use: each class registered once *)

Section IntendedUse.
Variable JSON_parse_text : string → option Field.
Variable JSON_print_text : Field → string.
Variable calls : list (Ctor * string).
Hypothesis calls_typed : Forall (fun c => is_UUID (snd c) = true) calls.
Hypothesis classes_once : NoDup (map (fun c => prototype (fst c)) calls).
Hypothesis identifiers_once : NoDup (map snd calls).

(** X9.  When every call of [register] names a class and an identifier that
    no other call names, every value of the universe whose numbers are
    finite and not [-0] and whose instances have no own property
    [__proto__] comes back from [parse] of the text that [JSON.stringify]
    makes of it, provided the platform reads back the document it writes. *)
Theorem roundtrip_when_registered_once (v : Serde) :
  Serde_universe (registrations calls) v → numbers_kept v → ordinary_keys v →
  (∀ d, SerializeJSONProperty (registrations calls) v = Return d →
        JSON_parse_text (JSON_print_text d) = Some d) →
  ∃ text,
    JSON_stringify JSON_print_text (registrations calls) v = Return text ∧
    Struct_parse JSON_parse_text (registrations calls) text = Return v.
Proof using calls_typed classes_once identifiers_once.
  intros Hu Hnums _ Htext.
  destruct (Internalize_Serialize (registrations calls) v) as (d & Hd & Hv);
    auto using Registered_registrations, tags_resolve_one_to_one.
  exists (JSON_print_text d). unfold JSON_stringify, Struct_parse.
  by rewrite Hd, (Htext d Hd), Hv.
Qed.

(** X10.  In the same use, the accessor [_] of an instance that [parse] has
    restored returns the identifier that the node of the document
    carried. *)
Theorem accessor_returns_document_identifier
    (json : string) (d : Field) (path : list Step)
    (props : list (string * Field)) (id : UUID) (proto : Proto) :
  JSON_parse_text json = Some d →
  Field_at path d = Some (FObj props) →
  obj_get props "_" = Some (FStr id) →
  ID_TO_PROTO (registrations calls) !! id = Some proto →
  ∃ v own,
    Struct_parse JSON_parse_text (registrations calls) json = Return v ∧
    Serde_at path v = Some (SStruct proto own) ∧
    Struct_get_ (registrations calls) proto = Return id.
Proof using calls_typed classes_once identifiers_once.
  intros Hparse Hat Hget Hid. unfold Struct_parse. rewrite Hparse.
  eexists. eexists. split; [reflexivity|]. split.
  - rewrite (Internalize_at _ path d (FObj props)) by done.
    by rewrite Internalize_FObj_cases, Hget, Hid.
  - apply registrations_one_to_one in Hid; [|done|done].
    unfold Struct_get_. rewrite Hid.
    by rewrite (Registered_truthy (registrations calls) proto id)
      by auto using Registered_registrations.
Qed.

End IntendedUse.

(** ** What writing keeps *)

(** X11.  Writing loses nothing: in a registry where identifiers lead back
    to their classes, two values of the universe whose numbers are finite
    and not [-0] and whose instances have no own property [__proto__], that
    have the same document, are the same value. *)
Theorem encode_is_injective (reg : Registry) (v1 v2 : Serde) (d : Field) :
  Registered reg →
  Serde_universe reg v1 → tags_resolve reg v1 → numbers_kept v1 →
  ordinary_keys v1 →
  Serde_universe reg v2 → tags_resolve reg v2 → numbers_kept v2 →
  ordinary_keys v2 →
  SerializeJSONProperty reg v1 = Return d →
  SerializeJSONProperty reg v2 = Return d →
  v1 = v2.
Proof.
  intros Hreg Hu1 Ht1 Hn1 _ Hu2 Ht2 Hn2 _ Hd1 Hd2.
  destruct (Internalize_Serialize reg v1) as (d1 & Hs1 & <-); try done.
  destruct (Internalize_Serialize reg v2) as (d2 & Hs2 & <-); try done.
  congruence.
Qed.

(** X12.  Whatever has been registered, the document of an instance of a
    registered class, no instance in which has an own property
    [__proto__], is restored by [parse] to an instance, of the class that
    the identifier written leads to, with the field names of the original in
    their order; it is never left as a plain object. *)
Theorem written_instance_is_restored
    (reg : Registry) (proto : Proto) (own : list (string * Serde)) :
  Registered reg → Serde_universe reg (SStruct proto own) →
  ordinary_keys (SStruct proto own) →
  ∃ id d proto' own',
    PROTO_TO_ID reg !! proto = Some id ∧
    ID_TO_PROTO reg !! id = Some proto' ∧
    SerializeJSONProperty reg (SStruct proto own) = Return d ∧
    InternalizeJSONProperty reg d = SStruct proto' own' ∧
    obj_keys own' = obj_keys own.
Proof.
  intros Hreg Hu _.
  pose proof (Registered_type_registered reg _ Hreg Hu) as [_ Hin].
  destruct Hu as [([id Hid] & Horder & Hno & Hmethod) _].
  pose proof (Registered_truthy reg proto id Hreg Hid) as Ht.
  destruct (Registered_forth reg proto id Hreg Hid) as [proto' Hproto'].
  destruct (each_prop_returns (SerializeJSONProperty reg) own) as [fs Hfs].
  { simpl in Hin. apply all_props_Forall in Hin.
    eapply Forall_impl; [exact Hin|]. intros kv. apply Serialize_returns. }
  pose proof (each_prop_keys _ _ _ Hfs) as Hkeys.
  assert (Hno' : obj_has fs "_" = false)
    by (by rewrite (obj_has_same_keys own fs)).
  exists id. eexists. exists proto'. eexists.
  split; [done|]. split; [done|]. split.
  { rewrite (Serialize_Struct reg proto own id), Hfs by done. reflexivity. }
  rewrite copy_own_tagged by (by rewrite ?Hkeys).
  rewrite Internalize_FObj_cases.
  rewrite obj_get_app_skip by (by apply index_props_has).
  simpl. rewrite Hproto'. split; [reflexivity|].
  rewrite map_props_app, obj_delete_app. simpl.
  rewrite !obj_delete_absent; rewrite ?obj_keys_app, ?obj_keys_map_props.
  - rewrite <- obj_keys_app, <- Hkeys. f_equal. symmetry.
    apply (enumeration_split None). rewrite Hkeys. apply Horder.
  - rewrite (obj_has_same_keys (name_props fs)) by apply obj_keys_map_props.
    by apply name_props_has.
  - rewrite (obj_has_same_keys (index_props fs)) by apply obj_keys_map_props.
    by apply index_props_has.
Qed.

(** ** The methods of [Option] *)

Lemma is_Option_cases this :
  Demo.is_Option this = true →
  ∃ own, this = SStruct Demo.Some_prototype own ∨ this = SStruct Demo.None_prototype own.
Proof.
  destruct this as [| | | |proto own| |]; try done. unfold Demo.is_Option.
  intros [->%Pos.eqb_eq| ->%Pos.eqb_eq]%orb_true_iff; eauto.
Qed.

Lemma has_method_cases this name :
  Demo.has_method this name = true →
  ∃ own, obj_has own name = false ∧
    (this = SStruct Demo.Some_prototype own ∨ this = SStruct Demo.None_prototype own).
Proof.
  destruct this as [| | | |proto own| |]; try done. unfold Demo.has_method.
  intros [[Hopt _]%andb_true_iff Hown%negb_true_iff]%andb_true_iff.
  destruct (is_Option_cases _ Hopt) as [own' [[= -> ->] | [= -> ->]]]; eauto.
Qed.

(** What the methods do on an instance of [Some] and on one of [None]. *)
Lemma Option_isSome_Some own :
  Demo.Option_isSome (SStruct Demo.Some_prototype own)
  = if obj_has own "isSome" then Demo.not_a_function else Return true.
Proof.
  unfold Demo.Option_isSome, Demo.has_method. simpl.
  by destruct (obj_has own "isSome").
Qed.


Lemma Option_isSome_new_Some a : Demo.Option_isSome (Demo.new_Some a) = Return true.
Proof. reflexivity. Qed.

Lemma Option_isSome_new_None : Demo.Option_isSome Demo.new_None = Return false.
Proof. reflexivity. Qed.




(** X16.  [unwrapOr] after [map], on a receiver that has the method [map]:
    the callback applied to the field [v] where the receiver answers
    [isSome] with [true], the default where it answers [false]. *)
Theorem unwrapOr_after_map
    (f : option Serde → Outcome Serde) (this defaultValue : Serde) :
  Demo.has_method this "map" = true →
  (y ← Demo.Option_map f this; Demo.Option_unwrapOr y defaultValue)
  = (b ← Demo.Option_isSome this;
     if b : bool then z ← f (Demo.Get_v this); Return (Some z)
     else Return (Some defaultValue)).
Proof.
  intros Hm. unfold Demo.Option_map. rewrite Hm.
  destruct (Demo.Option_isSome this) as [[]|]; simpl; [|done|done].
  destruct (f (Demo.Get_v this)); by simpl.
Qed.

(** X17.  [parse] does not check the fields of a class: a node tagged with
    an identifier of [Some], with no property named as the methods called,
    is restored to an instance that answers [isSome] with [true] and on
    which [unwrapOr] returns what the node holds under [v], read from the
    document: [undefined], not the default, when the node has no [v]. *)
Theorem unwrapOr_of_restored_Some
    (reg : Registry) (props : list (string * Field)) (id : UUID)
    (defaultValue : Serde) :
  obj_get props "_" = Some (FStr id) →
  ID_TO_PROTO reg !! id = Some Demo.Some_prototype →
  obj_has props "isSome" = false → obj_has props "unwrapOr" = false →
  let this := InternalizeJSONProperty reg (FObj props) in
  Demo.Option_isSome this = Return true ∧
  Demo.Option_unwrapOr this defaultValue
  = Return (InternalizeJSONProperty reg <$> obj_get props "v").
Proof.
  intros Hget Hid Hs Hu this. unfold this.
  rewrite Internalize_FObj_cases, Hget, Hid.
  assert (Hhas : ∀ name, name ≠ "_" → obj_has props name = false →
    obj_has (obj_delete (map_props (InternalizeJSONProperty reg) props) "_") name
    = false).
  { intros name Hne Hname. rewrite obj_has_delete_ne by done.
    by rewrite (obj_has_same_keys props) by apply obj_keys_map_props. }
  assert (H1 : Demo.Option_isSome
            (SStruct Demo.Some_prototype
               (obj_delete (map_props (InternalizeJSONProperty reg) props) "_"))
          = Return true) by (by rewrite Option_isSome_Some, Hhas).
  split; [done|]. unfold Demo.Option_unwrapOr, Demo.has_method.
  rewrite H1, Hhas by done. simpl.
  by rewrite obj_get_delete_ne, obj_get_map_props.
Qed.

(** X18.  After [parse], a value has a method of [Option] exactly when the
    name is that of a method, its node carried an identifier that leads to
    the prototype of [Some] or of [None], and the node had no property of
    that name. *)
Theorem restored_method_iff_tagged (reg : Registry) (d : Field) (name : string) :
  Demo.has_method (InternalizeJSONProperty reg d) name = true ↔
  name ∈ Demo.Option_methods ∧
  ∃ props id,
    d = FObj props ∧ obj_get props "_" = Some (FStr id) ∧
    (ID_TO_PROTO reg !! id = Some Demo.Some_prototype ∨
     ID_TO_PROTO reg !! id = Some Demo.None_prototype) ∧
    obj_has props name = false.
Proof.
  assert (Hname : existsb (String.eqb name) Demo.Option_methods = true
                  ↔ name ∈ Demo.Option_methods).
  { rewrite existsb_exists. setoid_rewrite String.eqb_eq.
    setoid_rewrite <- list_elem_of_In. split.
    - by intros (x & Hx & ->).
    - intros Hin. by exists name. }
  assert (Hnot : name ∈ Demo.Option_methods → name ≠ "_").
  { intros Hin ->. revert Hin. compute_done. }
  assert (Hhas : ∀ props, name ≠ "_" →
    obj_has (obj_delete (map_props (InternalizeJSONProperty reg) props) "_") name
    = obj_has props name).
  { intros props Hne. rewrite obj_has_delete_ne by done.
    by apply obj_has_same_keys, obj_keys_map_props. }
  split.
  - destruct d as [| | | |items|props]; try done.
    rewrite Internalize_FObj_cases.
    destruct (obj_get props "_") as [[| | |id| |]|] eqn:Hget; try done.
    destruct (ID_TO_PROTO reg !! id) as [proto|] eqn:Hid; [|done].
    intros Hm. pose proof Hm as (own & Hown & Hthis)%has_method_cases.
    unfold Demo.has_method in Hm.
    apply andb_true_iff in Hm as [[_ Hin%Hname]%andb_true_iff _].
    split; [done|]. exists props, id.
    assert (Hprops : obj_has props name = false).
    { destruct Hthis as [[= _ <-] | [= _ <-]]; by rewrite Hhas in Hown by auto. }
    destruct Hthis as [[= -> _] | [= -> _]]; auto.
  - intros (Hin & props & id & -> & Hget & Hid & Hprops).
    rewrite Internalize_FObj_cases, Hget.
    apply Hname in Hin as Hex.
    destruct Hid as [Hid | Hid]; rewrite Hid; unfold Demo.has_method;
      by rewrite Hex, Hhas, Hprops by auto.
Qed.

Lemma Demo_calls_once :
  NoDup (map (fun c => prototype (fst c)) Demo.calls) ∧ NoDup (map snd Demo.calls).
Proof. split; compute_done. Qed.

(** X19.  What [map] returns can be stored: when the callback returns
    values of the universe whose numbers are finite and not [-0] and whose
    instances have no own property [__proto__], the result of [map] is
    written by [JSON.stringify] under the registry of the demo and read back
    by [parse] as it was. *)
Theorem Option_map_result_roundtrips
    (f : option Serde → Outcome Serde) (this y : Serde) :
  (∀ v z, f v = Return z →
          Serde_universe Demo.registry z ∧ numbers_kept z ∧ ordinary_keys z) →
  Demo.Option_map f this = Return y →
  ∃ d, SerializeJSONProperty Demo.registry y = Return d ∧
       InternalizeJSONProperty Demo.registry d = y.
Proof.
  intros Hf. unfold Demo.Option_map.
  destruct (Demo.has_method this "map"); [|done].
  assert (Hy : Serde_universe Demo.registry y ∧ numbers_kept y →
    ∃ d, SerializeJSONProperty Demo.registry y = Return d ∧
         InternalizeJSONProperty Demo.registry d = y).
  { intros [Hu Hn]. destruct Demo_calls_once as [H1 H2].
    apply Internalize_Serialize; try done.
    - apply DemoFacts.registry_Registered.
    - by apply tags_resolve_one_to_one. }
  destruct (Demo.Option_isSome this) as [[]|]; simpl; [| |done].
  - destruct (f (Demo.Get_v this)) as [z|] eqn:Hz; [|done]. intros [= <-].
    destruct (Hf _ _ Hz) as (Hu & Hn & _). apply Hy. split.
    + split; [|by split]. in_universe.
    + split; [done|]. by split.
  - intros [= <-]. apply Hy. split; [in_universe|by split].
Qed.

(** ** The further properties on the values of the demo *)

(** X1 on [new Some(42)]. *)
Lemma toJSON_agrees_with_accessor_witness :
  NoDup (obj_keys [("v", SNum (Demo.num 42))]) ∧
  ((Struct_get_ Demo.registry Demo.Some_prototype = Throw Unregistered ∧
    Struct_toJSON Demo.registry Demo.Some_prototype [("v", SNum (Demo.num 42))]
    = Throw Unregistered) ∨
   (∃ id doc,
      Struct_get_ Demo.registry Demo.Some_prototype = Return id ∧
      Struct_toJSON Demo.registry Demo.Some_prototype [("v", SNum (Demo.num 42))]
      = Return doc ∧
      obj_get doc "_"
      = match obj_get [("v", SNum (Demo.num 42))] "_" with
        | Some x => Some x
        | None => Some (SStr id)
        end)).
Proof.
  assert (H : NoDup (obj_keys [("v", SNum (Demo.num 42))])) by compute_done.
  split; [exact H|].
  exact (toJSON_agrees_with_accessor Demo.registry Demo.Some_prototype
           [("v", SNum (Demo.num 42))] H).
Defined.

(** X2 on [new Some(42)] and its document. *)
Lemma toJSON_copies_own_properties_witness :
  (NoDup (obj_keys [("v", SNum (Demo.num 42))]) ∧
   obj_has [("v", SNum (Demo.num 42))] "__proto__" = false ∧
   Struct_toJSON Demo.registry Demo.Some_prototype [("v", SNum (Demo.num 42))]
   = Return [("_", SStr Demo.Some_id); ("v", SNum (Demo.num 42))]) ∧
  (∀ k, obj_has [("v", SNum (Demo.num 42))] k = true →
        obj_get [("_", SStr Demo.Some_id); ("v", SNum (Demo.num 42))] k
        = obj_get [("v", SNum (Demo.num 42))] k) ∧
  (∀ k, obj_has [("v", SNum (Demo.num 42))] k = false → k ≠ "_" →
        obj_get [("_", SStr Demo.Some_id); ("v", SNum (Demo.num 42))] k = None) ∧
  (obj_has [("v", SNum (Demo.num 42))] "_" = false →
   length [("_", SStr Demo.Some_id); ("v", SNum (Demo.num 42))]
   = S (length [("v", SNum (Demo.num 42))])).
Proof.
  set (own := [("v", SNum (Demo.num 42))]).
  set (doc := [("_", SStr Demo.Some_id); ("v", SNum (Demo.num 42))]).
  assert (H1 : NoDup (obj_keys own)) by compute_done.
  assert (H2 : obj_has own "__proto__" = false) by reflexivity.
  assert (H3 : Struct_toJSON Demo.registry Demo.Some_prototype own = Return doc)
    by reflexivity.
  split; [split; [exact H1|split; [exact H2|exact H3]]|].
  exact (toJSON_copies_own_properties Demo.registry Demo.Some_prototype
           own doc H1 H2 H3).
Defined.

(** X3 on [{ _: "00000000-...", data: "test" }]. *)
Lemma parse_without_known_identifier_witness :
  all_fields (tag_unknown Demo.registry) Demo.foreign_doc ∧
  InternalizeJSONProperty Demo.registry Demo.foreign_doc
  = Field_plain Demo.foreign_doc.
Proof.
  assert (H : all_fields (tag_unknown Demo.registry) Demo.foreign_doc).
  { split; [by intros id [= <-]|]. split; [by split|]. split; [by split|done]. }
  split; [exact H|].
  exact (proj1 (parse_without_known_identifier Demo.registry Demo.foreign_doc) H).
Defined.

(** X4: the registration of [Some] and the document of a [Pair]. *)
Lemma register_keeps_other_documents_witness :
  all_fields (not_tagged Demo.Some_id) Demo.Pair12_doc ∧
  InternalizeJSONProperty
    (Struct_register Registry_init Demo.Some_ Demo.Some_id) Demo.Pair12_doc
  = InternalizeJSONProperty Registry_init Demo.Pair12_doc.
Proof.
  assert (H : all_fields (not_tagged Demo.Some_id) Demo.Pair12_doc).
  { split; [by intros [= ?]|]. repeat (split; [by split|]). done. }
  split; [exact H|].
  exact (register_keeps_other_documents Registry_init Demo.Some_ Demo.Some_id
           Demo.Pair12_doc H).
Defined.

(** X5: the registration of [None] and [new Some(42)]. *)
Lemma register_keeps_other_values_witness :
  all_nodes (not_instance_of (prototype Demo.None_)) Demo.Some42 ∧
  SerializeJSONProperty
    (Struct_register (Struct_register Registry_init Demo.Some_ Demo.Some_id)
       Demo.None_ Demo.None_id) Demo.Some42
  = SerializeJSONProperty
      (Struct_register Registry_init Demo.Some_ Demo.Some_id) Demo.Some42.
Proof.
  set (reg := Struct_register Registry_init Demo.Some_ Demo.Some_id).
  assert (H : all_nodes (not_instance_of (prototype Demo.None_)) Demo.Some42).
  { split; [by intros [= ?]|]. split; [by split|done]. }
  split; [exact H|].
  exact (register_keeps_other_values reg Demo.None_ Demo.None_id Demo.Some42 H).
Defined.

(** X6 on the registrations of [Some] and [None]. *)
Lemma register_commutes_witness :
  (prototype Demo.Some_ ≠ prototype Demo.None_ ∧ Demo.Some_id ≠ Demo.None_id) ∧
  Struct_register (Struct_register Registry_init Demo.Some_ Demo.Some_id)
    Demo.None_ Demo.None_id
  = Struct_register (Struct_register Registry_init Demo.None_ Demo.None_id)
      Demo.Some_ Demo.Some_id.
Proof.
  assert (H1 : prototype Demo.Some_ ≠ prototype Demo.None_) by (by intros [= ?]).
  assert (H2 : Demo.Some_id ≠ Demo.None_id) by (by intros [= ?]).
  split; [split; [exact H1|exact H2]|].
  exact (register_commutes Registry_init Demo.Some_ Demo.None_
           Demo.Some_id Demo.None_id H1 H2).
Defined.

(** X7 on the text of [new Some(42)]. *)
Lemma parse_restores_at_every_depth_witness :
  Struct_parse Demo.sample_read Demo.registry Demo.Some42_text
  = Return Demo.Some42 ∧
  all_nodes (restored Demo.registry) Demo.Some42.
Proof.
  assert (H : Struct_parse Demo.sample_read Demo.registry Demo.Some42_text
              = Return Demo.Some42) by reflexivity.
  split; [exact H|].
  exact (parse_restores_at_every_depth Demo.sample_read Demo.registry
           Demo.Some42_text Demo.Some42 H).
Defined.

(** X8 on the text of a node tagged as [Some] that has no field [v]. *)
Lemma parse_result_is_serialisable_witness :
  (Registered Demo.registry ∧
   Struct_parse Demo.sample_read Demo.registry Demo.bare_Some_text
   = Return (SStruct Demo.Some_prototype [])) ∧
  ∃ text,
    JSON_stringify Demo.sample_write Demo.registry
      (SStruct Demo.Some_prototype []) = Return text.
Proof.
  pose proof DemoFacts.registry_Registered as H1.
  assert (H2 : Struct_parse Demo.sample_read Demo.registry Demo.bare_Some_text
               = Return (SStruct Demo.Some_prototype [])) by reflexivity.
  split; [split; [exact H1|exact H2]|].
  exact (parse_result_is_serialisable Demo.sample_read Demo.sample_write
           Demo.registry Demo.bare_Some_text _ H1 H2).
Defined.

(** X9 on the calls of the demo and [new Some(42)]. *)
Lemma roundtrip_when_registered_once_witness :
  (Forall (fun c => is_UUID (snd c) = true) Demo.calls ∧
   NoDup (map (fun c => prototype (fst c)) Demo.calls) ∧
   NoDup (map snd Demo.calls) ∧
   Serde_universe (registrations Demo.calls) Demo.Some42 ∧
   numbers_kept Demo.Some42 ∧ ordinary_keys Demo.Some42 ∧
   ∀ d, SerializeJSONProperty (registrations Demo.calls) Demo.Some42 = Return d →
        Demo.sample_read (Demo.sample_write d) = Some d) ∧
  ∃ text,
    JSON_stringify Demo.sample_write (registrations Demo.calls) Demo.Some42
    = Return text ∧
    Struct_parse Demo.sample_read (registrations Demo.calls) text
    = Return Demo.Some42.
Proof.
  pose proof DemoFacts.calls_typed as H1.
  destruct Demo_calls_once as [H2 H3].
  pose proof DemoFacts.Some42_in_universe as H4.
  pose proof DemoFacts.Some42_numbers_kept as H5.
  pose proof DemoFacts.Some42_text_read_back as H6.
  pose proof DemoFacts.Some42_ordinary_keys as H7.
  split; [done|].
  exact (roundtrip_when_registered_once Demo.sample_read Demo.sample_write
           Demo.calls H1 H2 H3 Demo.Some42 H4 H5 H7 H6).
Defined.

(** X10 on the text of [new Some(42)]. *)
Lemma accessor_returns_document_identifier_witness :
  (Forall (fun c => is_UUID (snd c) = true) Demo.calls ∧
   NoDup (map (fun c => prototype (fst c)) Demo.calls) ∧
   NoDup (map snd Demo.calls) ∧
   Demo.sample_read Demo.Some42_text = Some Demo.Some42_doc ∧
   Field_at [] Demo.Some42_doc
   = Some (FObj [("_", FStr Demo.Some_id); ("v", FNum (Demo.num 42))]) ∧
   obj_get [("_", FStr Demo.Some_id); ("v", FNum (Demo.num 42))] "_"
   = Some (FStr Demo.Some_id) ∧
   ID_TO_PROTO (registrations Demo.calls) !! Demo.Some_id
   = Some Demo.Some_prototype) ∧
  ∃ v own,
    Struct_parse Demo.sample_read (registrations Demo.calls) Demo.Some42_text
    = Return v ∧
    Serde_at [] v = Some (SStruct Demo.Some_prototype own) ∧
    Struct_get_ (registrations Demo.calls) Demo.Some_prototype
    = Return Demo.Some_id.
Proof.
  pose proof DemoFacts.calls_typed as H1.
  destruct Demo_calls_once as [H2 H3].
  assert (H4 : Demo.sample_read Demo.Some42_text = Some Demo.Some42_doc)
    by reflexivity.
  assert (H5 : Field_at [] Demo.Some42_doc
    = Some (FObj [("_", FStr Demo.Some_id); ("v", FNum (Demo.num 42))]))
    by reflexivity.
  assert (H6 : obj_get [("_", FStr Demo.Some_id); ("v", FNum (Demo.num 42))] "_"
    = Some (FStr Demo.Some_id)) by reflexivity.
  assert (H7 : ID_TO_PROTO (registrations Demo.calls) !! Demo.Some_id
    = Some Demo.Some_prototype) by reflexivity.
  split; [done|].
  exact (accessor_returns_document_identifier Demo.sample_read Demo.calls
           H1 H2 H3 Demo.Some42_text Demo.Some42_doc [] _ Demo.Some_id
           Demo.Some_prototype H4 H5 H6 H7).
Defined.

(** X11 on [new Some(42)] and its document. *)
Lemma encode_is_injective_witness :
  (Registered Demo.registry ∧
   Serde_universe Demo.registry Demo.Some42 ∧
   tags_resolve Demo.registry Demo.Some42 ∧ numbers_kept Demo.Some42 ∧
   ordinary_keys Demo.Some42 ∧
   SerializeJSONProperty Demo.registry Demo.Some42 = Return Demo.Some42_doc ∧
   SerializeJSONProperty Demo.registry (Demo.new_Some (SNum (Demo.num 42)))
   = Return Demo.Some42_doc) ∧
  Demo.Some42 = Demo.new_Some (SNum (Demo.num 42)).
Proof.
  pose proof DemoFacts.registry_Registered as H1.
  pose proof DemoFacts.Some42_in_universe as H2.
  pose proof DemoFacts.Some42_tags_resolve as H3.
  pose proof DemoFacts.Some42_numbers_kept as H4.
  assert (H5 : SerializeJSONProperty Demo.registry Demo.Some42
               = Return Demo.Some42_doc) by reflexivity.
  pose proof DemoFacts.Some42_ordinary_keys as H6.
  split; [done|].
  exact (encode_is_injective Demo.registry Demo.Some42
           (Demo.new_Some (SNum (Demo.num 42))) Demo.Some42_doc
           H1 H2 H3 H4 H6 H2 H3 H4 H6 H5 H5).
Defined.

(** X12 on a [Pair], whose fields are numbered. *)
Lemma written_instance_is_restored_witness :
  (Registered Demo.registry ∧ Serde_universe Demo.registry Demo.Pair12 ∧
   ordinary_keys Demo.Pair12) ∧
  ∃ id d proto' own',
    PROTO_TO_ID Demo.registry !! Demo.Pair_prototype = Some id ∧
    ID_TO_PROTO Demo.registry !! id = Some proto' ∧
    SerializeJSONProperty Demo.registry Demo.Pair12 = Return d ∧
    InternalizeJSONProperty Demo.registry d = SStruct proto' own' ∧
    obj_keys own' = ["0"; "1"].
Proof.
  pose proof DemoFacts.registry_Registered as H1.
  pose proof DemoFacts.Pair12_in_universe as H2.
  pose proof DemoFacts.Pair12_ordinary_keys as H3.
  split; [done|].
  exact (written_instance_is_restored Demo.registry Demo.Pair_prototype
           [("0", SNum (Demo.num 1)); ("1", SNum (Demo.num 2))] H1 H2 H3).
Defined.



(** X16 with the callback [v => [v ?? null]], on [new Some(42)]. *)
Lemma unwrapOr_after_map_witness :
  Demo.has_method Demo.Some42 "map" = true ∧
  (y ← Demo.Option_map Demo.in_array Demo.Some42; Demo.Option_unwrapOr y SNull)
  = (b ← Demo.Option_isSome Demo.Some42;
     if b : bool
     then z ← Demo.in_array (Demo.Get_v Demo.Some42); Return (Some z)
     else Return (Some SNull)).
Proof.
  assert (H : Demo.has_method Demo.Some42 "map" = true) by reflexivity.
  split; [exact H|].
  exact (unwrapOr_after_map Demo.in_array Demo.Some42 SNull H).
Defined.

(** X17 on a node tagged as [Some] that has no field [v]: [unwrapOr(0)]
    returns [undefined]. *)
Lemma unwrapOr_of_restored_Some_witness :
  (obj_get [("_", FStr Demo.Some_id)] "_" = Some (FStr Demo.Some_id) ∧
   ID_TO_PROTO Demo.registry !! Demo.Some_id = Some Demo.Some_prototype ∧
   obj_has [("_", FStr Demo.Some_id)] "isSome" = false ∧
   obj_has [("_", FStr Demo.Some_id)] "unwrapOr" = false) ∧
  Demo.Option_isSome (InternalizeJSONProperty Demo.registry Demo.bare_Some_doc)
  = Return true ∧
  Demo.Option_unwrapOr
    (InternalizeJSONProperty Demo.registry Demo.bare_Some_doc) (SNum (Demo.num 0))
  = Return None.
Proof.
  set (props := [("_", FStr Demo.Some_id)]).
  assert (H1 : obj_get props "_" = Some (FStr Demo.Some_id)) by reflexivity.
  assert (H2 : ID_TO_PROTO Demo.registry !! Demo.Some_id
               = Some Demo.Some_prototype) by reflexivity.
  assert (H3 : obj_has props "isSome" = false) by reflexivity.
  assert (H4 : obj_has props "unwrapOr" = false) by reflexivity.
  split; [done|].
  exact (unwrapOr_of_restored_Some Demo.registry props Demo.Some_id
           (SNum (Demo.num 0)) H1 H2 H3 H4).
Defined.

(** X18: the document of [new Some(42)] is restored with the method
    [map]. *)
Lemma restored_method_iff_tagged_witness :
  ("map" ∈ Demo.Option_methods ∧
   ∃ props id,
     Demo.Some42_doc = FObj props ∧ obj_get props "_" = Some (FStr id) ∧
     (ID_TO_PROTO Demo.registry !! id = Some Demo.Some_prototype ∨
      ID_TO_PROTO Demo.registry !! id = Some Demo.None_prototype) ∧
     obj_has props "map" = false) ∧
  Demo.has_method (InternalizeJSONProperty Demo.registry Demo.Some42_doc) "map"
  = true.
Proof.
  assert (H : "map" ∈ Demo.Option_methods ∧
    ∃ props id,
      Demo.Some42_doc = FObj props ∧ obj_get props "_" = Some (FStr id) ∧
      (ID_TO_PROTO Demo.registry !! id = Some Demo.Some_prototype ∨
       ID_TO_PROTO Demo.registry !! id = Some Demo.None_prototype) ∧
      obj_has props "map" = false).
  { split; [compute_done|].
    exists [("_", FStr Demo.Some_id); ("v", FNum (Demo.num 42))], Demo.Some_id.
    split; [reflexivity|]. split; [reflexivity|].
    split; [left; reflexivity|reflexivity]. }
  split; [exact H|].
  exact (proj2 (restored_method_iff_tagged Demo.registry Demo.Some42_doc "map") H).
Defined.

(** X19 with a callback that wraps a finite number other than [-0] in an
    array and throws on anything else, on [new Some(42)]. *)
Lemma Option_map_result_roundtrips_witness :
  ((∀ v z, Demo.finite_in_array v = Return z →
           Serde_universe Demo.registry z ∧ numbers_kept z ∧ ordinary_keys z) ∧
   Demo.Option_map Demo.finite_in_array Demo.Some42
   = Return (Demo.new_Some (SArr [SNum (Demo.num 42)]))) ∧
  ∃ d, SerializeJSONProperty Demo.registry
         (Demo.new_Some (SArr [SNum (Demo.num 42)])) = Return d ∧
       InternalizeJSONProperty Demo.registry d
       = Demo.new_Some (SArr [SNum (Demo.num 42)]).
Proof.
  assert (H1 : ∀ v z, Demo.finite_in_array v = Return z →
    Serde_universe Demo.registry z ∧ numbers_kept z ∧ ordinary_keys z).
  { intros [[| |[q| | | |]| | | |]|] z; try done. intros [= <-].
    split; [|split]; (split; [done|by split]). }
  assert (H2 : Demo.Option_map Demo.finite_in_array Demo.Some42
    = Return (Demo.new_Some (SArr [SNum (Demo.num 42)]))) by reflexivity.
  split; [split; [exact H1|exact H2]|].
  exact (Option_map_result_roundtrips Demo.finite_in_array Demo.Some42 _ H1 H2).
Defined.
